(** * auto-mirror: the watch-and-dispatch loop of [sync_to_ssds.cpp]

    A shallow embedding of [src/sync_to_ssds.cpp].  The program talks to
    the operating system all the time (mount table, shell, inotify, the
    standard streams), so every function is a computation over a small
    world state that also records, in order, each system call and each
    output line it performs.  The answers of the operating system are
    given by an environment of oracles. *)

From Stdlib Require Import List String Ascii ZArith Lia Bool Arith.
From Stdlib Require Import Strings.Byte.
Import ListNotations.

Local Open Scope string_scope.
Local Open Scope Z_scope.
Local Open Scope list_scope.

(** ** Data *)

(** [struct mntent] of <mntent.h>, as [getmntent] returns it. *)
Record mntent := {
  mnt_fsname : string;
  mnt_dir : string;
  mnt_type : string;
  mnt_opts : string;
  mnt_freq : Z;
  mnt_passno : Z
}.

(** What the process does that is visible from outside, in program
    order: lines on the two standard streams (the text before
    [std::endl], or before the newline of [printf]) and system calls. *)
Inductive event :=
| Stdout (line : string)
| Stderr (line : string)
| Call_setmntent (file : string)
| Call_endmntent
| Call_system (command : string)
| Call_inotify_init
| Call_inotify_add_watch (fd : Z) (path : string) (mask : Z)
| Call_read (fd : Z)
| Call_inotify_rm_watch (fd wd : Z)
| Call_close (fd : Z).

(** One answer of [read(fd, buffer, BUF_LEN)]: a negative length, or
    the bytes the kernel stored at the start of [buffer]. *)
Inductive read_result :=
| ReadFailed
| ReadData (data : list byte).

(** The operating system's answers.  The mount table and the exit
    status of a command may differ at each call, so both are indexed by
    the number of earlier calls of the same kind. *)
Record Env := {
  mtab_at : nat -> option (list mntent);
  system_at : nat -> string -> Z;
  inotify_init_result : Z;
  inotify_add_watch_result : Z -> string -> Z -> Z
}.

(** The process state the functions thread: how many times the mount
    table was opened and a command run so far, and [char buffer[BUF_LEN]]
    of [main]. *)
Record World := {
  mount_queries : nat;
  system_calls : nat;
  buffer : list byte
}.

Definition count_mount_query (w : World) : World :=
  {| mount_queries := S (mount_queries w);
     system_calls := system_calls w;
     buffer := buffer w |}.

Definition count_system_call (w : World) : World :=
  {| mount_queries := mount_queries w;
     system_calls := S (system_calls w);
     buffer := buffer w |}.

Definition store_in_buffer (data : list byte) (w : World) : World :=
  {| mount_queries := mount_queries w;
     system_calls := system_calls w;
     buffer := data ++ skipn (List.length data) (buffer w) |}.

(** ** The monad of the embedding: state passing plus the event log *)

Definition M (A : Type) : Type := World -> A * World * list event.

Definition ret {A} (a : A) : M A := fun w => (a, w, []).

Definition bind {A B} (m : M A) (k : A -> M B) : M B :=
  fun w =>
    let '(a, w1, t1) := m w in
    let '(b, w2, t2) := k a w1 in
    (b, w2, t1 ++ t2).

Definition emit (e : event) : M unit := fun w => (tt, w, [e]).

Declare Scope monad_scope.
Delimit Scope monad_scope with monad.
Notation "x <- c1 ;; c2" := (bind c1 (fun x => c2))
  (at level 61, c1 at next level, right associativity) : monad_scope.
Notation "c1 ;; c2" := (bind c1 (fun _ => c2))
  (at level 61, right associativity) : monad_scope.
Local Open Scope monad_scope.

Definition result {A} (r : A * World * list event) : A := fst (fst r).
Definition world_of {A} (r : A * World * list event) : World := snd (fst r).
Definition events {A} (r : A * World * list event) : list event := snd r.
Arguments result {A} !r /.
Arguments world_of {A} !r /.
Arguments events {A} !r /.

(** [std::cout << s << std::endl] and [std::cerr << s << std::endl]. *)
Definition cout (s : string) : M unit := emit (Stdout s).
Definition cerr (s : string) : M unit := emit (Stderr s).

Section Program.

Variable env : Env.

(** ** System calls *)

(** [setmntent("/etc/mtab", "r")]: [None] is the null stream; otherwise
    the entries [getmntent] will deliver one by one. *)
Definition setmntent (file : string) : M (option (list mntent)) :=
  fun w =>
    (mtab_at env (mount_queries w), count_mount_query w,
     [Call_setmntent file]).

Definition endmntent : M unit := emit Call_endmntent.

(** [system(command.c_str())]. *)
Definition system (command : string) : M Z :=
  fun w =>
    (system_at env (system_calls w) command, count_system_call w,
     [Call_system command]).

(** ** [is_drive_mounted] *)

(** The [while ((entry = getmntent(mtab)) != nullptr)] loop: each entry
    read is echoed on standard output, and the loop breaks at the first
    entry whose [mnt_dir] equals [drive]. *)
Fixpoint getmntent_loop (entries : list mntent) (drive : string) : M bool :=
  match entries with
  | [] => ret false
  | entry :: rest =>
      cout (mnt_dir entry) ;;
      if String.eqb (mnt_dir entry) drive
      then ret true
      else getmntent_loop rest drive
  end.

(** [printf("%d\n", mounted)]. *)
Definition print_flag (mounted : bool) : M unit :=
  cout (if mounted then "1" else "0").

Definition is_drive_mounted (drive : string) : M bool :=
  mtab <- setmntent "/etc/mtab" ;;
  match mtab with
  | None =>
      cerr "Error opening /etc/mtab" ;;
      ret false
  | Some entries =>
      mounted <- getmntent_loop entries drive ;;
      print_flag mounted ;;
      endmntent ;;
      ret mounted
  end.

(** ** [sync_directory] *)

Definition rsync_command (src dest : string) : string :=
  ("rsync -avz --delete " ++ src ++ " " ++ dest)%string.

Definition sync_failed_line (src dest : string) : string :=
  ("Error syncing " ++ src ++ " to " ++ dest)%string.

Definition sync_ok_line (src dest : string) : string :=
  ("Successfully synced " ++ src ++ " to " ++ dest)%string.

Definition sync_directory (src dest : string) : M unit :=
  let command := rsync_command src dest in
  status <- system command ;;
  if negb (status =? 0)
  then cerr (sync_failed_line src dest)
  else cout (sync_ok_line src dest).

(** ** [sync_to_all_drives] *)

Fixpoint sync_to_all_drives (src : string) (drives : list string) : M unit :=
  match drives with
  | [] => ret tt
  | drive :: rest =>
      mounted <- is_drive_mounted drive ;;
      (if mounted then sync_directory src drive else ret tt) ;;
      sync_to_all_drives src rest
  end.

(** ** Constants and the notification buffer *)

(** [sizeof(struct inotify_event)]: four 32-bit fields ([wd], [mask],
    [cookie], [len]) before the flexible [name]. *)
Definition EVENT_SIZE : Z := 16.
Definition BUF_LEN : Z := 1024 * (EVENT_SIZE + 16).

(** Event bits of <sys/inotify.h>. *)
Definition IN_MODIFY : Z := 0x2.
Definition IN_MOVED_FROM : Z := 0x40.
Definition IN_MOVED_TO : Z := 0x80.
Definition IN_CREATE : Z := 0x100.
Definition IN_DELETE : Z := 0x200.

Definition WATCH_MASK : Z :=
  Z.lor IN_CREATE (Z.lor IN_DELETE (Z.lor IN_MODIFY
    (Z.lor IN_MOVED_FROM IN_MOVED_TO))).

(** [INT_MAX] of <limits.h>, and the 32-bit arithmetic of [int] and
    [uint32_t]. *)
Definition INT_MAX : Z := 2 ^ 31 - 1.
Definition uint_wrap (z : Z) : Z := z mod 2 ^ 32.
Definition int_wrap (z : Z) : Z := (z + 2 ^ 31) mod 2 ^ 32 - 2 ^ 31.

(** [buffer[i]] as an unsigned byte, and a [uint32_t] stored at a byte
    offset (little-endian, as on the platforms inotify runs on). *)
Definition byte_at (buf : list byte) (i : Z) : Z :=
  Z.of_N (Byte.to_N (nth (Z.to_nat i) buf x00)).

Definition uint32_at (buf : list byte) (off : Z) : Z :=
  byte_at buf off + 2 ^ 8 * byte_at buf (off + 1)
  + 2 ^ 16 * byte_at buf (off + 2) + 2 ^ 24 * byte_at buf (off + 3).

(** [((struct inotify_event* )&buffer[i])->mask] and [->len]. *)
Definition event_mask (buf : list byte) (i : Z) : Z := uint32_at buf (i + 4).
Definition event_len (buf : list byte) (i : Z) : Z := uint32_at buf (i + 12).

(** ** Computations that may run out of fuel *)

Definition MF (A : Type) : Type := World -> option (A * World * list event).

Definition lift {A} (m : M A) : MF A := fun w => Some (m w).

Definition bindF {A B} (m : MF A) (k : A -> MF B) : MF B :=
  fun w =>
    match m w with
    | None => None
    | Some (a, w1, t1) =>
        match k a w1 with
        | None => None
        | Some (b, w2, t2) => Some (b, w2, t1 ++ t2)
        end
    end.

Declare Scope fuel_scope.
Delimit Scope fuel_scope with F.
Notation "x <- c1 ;; c2" := (bindF c1 (fun x => c2))
  (at level 61, c1 at next level, right associativity) : fuel_scope.
Notation "c1 ;; c2" := (bindF c1 (fun _ => c2))
  (at level 61, right associativity) : fuel_scope.

(** ** More system calls *)

Definition inotify_init : M Z :=
  fun w => (inotify_init_result env, w, [Call_inotify_init]).

Definition inotify_add_watch (fd : Z) (path : string) (mask : Z) : M Z :=
  fun w => (inotify_add_watch_result env fd path mask, w,
            [Call_inotify_add_watch fd path mask]).

Definition inotify_rm_watch (fd wd : Z) : M unit :=
  emit (Call_inotify_rm_watch fd wd).

Definition close (fd : Z) : M unit := emit (Call_close fd).

(** [read(fd, buffer, BUF_LEN)] when the kernel answers [r]: the data
    overwrite the start of [buffer], the rest keeps its old content. *)
Definition read (fd : Z) (r : read_result) : M Z :=
  fun w =>
    match r with
    | ReadFailed => (-1, w, [Call_read fd])
    | ReadData data =>
        (Z.of_nat (List.length data), store_in_buffer data w,
         [Call_read fd])
    end.

(** ** [main] *)

(** The inner [while (i < length)] loop.  One unit of [fuel] is one
    iteration; [None] means the fuel ran out before the loop ended. *)
Fixpoint scan_events (fuel : nat) (src_dir : string)
    (dest_drives : list string) (length i : Z) : MF unit :=
  match fuel with
  | O => fun _ => None
  | S fuel' => fun w =>
      if i <? length then
        let len := event_len (buffer w) i in
        let mask := event_mask (buffer w) i in
        if negb (len =? 0) then
          if negb (Z.land mask WATCH_MASK =? 0) then
            lift (cout ("Change detected in " ++ src_dir)%string ;;
                  sync_to_all_drives src_dir dest_drives)%monad w
          else
            scan_events fuel' src_dir dest_drives length
              (int_wrap (i + uint_wrap (EVENT_SIZE + len))) w
        else
          scan_events fuel' src_dir dest_drives length
            (int_wrap (i + uint_wrap (EVENT_SIZE + len))) w
      else lift (ret tt) w
  end.

(** How the [while (true)] loop is left: by its [break], or not at all
    because the process sits in a [read] that never returns. *)
Inductive loop_exit := Broke | Blocked_in_read.

(** The outer loop, run against the answers [reads] of the successive
    [read] calls.  After the last answer the next [read] blocks. *)
Fixpoint watch_loop (fuel : nat) (src_dir : string)
    (dest_drives : list string) (fd : Z) (reads : list read_result)
    : MF loop_exit :=
  match reads with
  | [] => lift (emit (Call_read fd) ;; ret Blocked_in_read)%monad
  | r :: later =>
      (length <- lift (read fd r) ;;
       if length <? 0 then
         lift (cerr "Error reading inotify events" ;; ret Broke)%monad
       else
         scan_events fuel src_dir dest_drives length 0 ;;
         watch_loop fuel src_dir dest_drives fd later)%F
  end.

(** What a run of the process amounts to. *)
Inductive outcome := Exit (code : Z) | Running.

Definition usage_line (argv0 : string) : string :=
  ("Usage: " ++ argv0
   ++ " <source_directory> <destination_drive1> [destination_drive2] ...")%string.

Definition main (fuel : nat) (argv : list string) (reads : list read_result)
    : MF outcome :=
  let argc := Z.of_nat (List.length argv) in
  if argc <? 3 then
    lift (cerr (usage_line (nth 0 argv "")) ;; ret (Exit 1))%monad
  else
    let src_dir := nth 1 argv "" in
    let dest_drives := skipn 2 argv in
    (fd <- lift inotify_init ;;
     if fd <? 0 then
       lift (cerr "Error initializing inotify" ;; ret (Exit 1))%monad
     else
       wd <- lift (inotify_add_watch fd src_dir WATCH_MASK) ;;
       if wd <? 0 then
         lift (cerr ("Error adding watch to " ++ src_dir)%string ;;
               close fd ;;
               ret (Exit 1))%monad
       else
         lift (cout ("Watching " ++ src_dir ++ " for changes...")%string) ;;
         lift (sync_to_all_drives src_dir dest_drives) ;;
         how <- watch_loop fuel src_dir dest_drives fd reads ;;
         match how with
         | Blocked_in_read => lift (ret Running)
         | Broke =>
             lift (inotify_rm_watch fd wd ;;
                   close fd ;;
                   ret (Exit 0))%monad
         end)%F.

End Program.

(** ** Reading the event log *)

(** The commands handed to [system], in order: the Mirror invocations. *)
Fixpoint mirror_calls (t : list event) : list string :=
  match t with
  | [] => []
  | Call_system command :: t' => command :: mirror_calls t'
  | _ :: t' => mirror_calls t'
  end.

(** The lines written on standard output and standard error. *)
Definition is_line (e : event) : bool :=
  match e with
  | Stdout _ | Stderr _ => true
  | _ => false
  end.

Definition lines (t : list event) : list event := filter is_line t.

(** Whether a line's text contains [dest]. *)
Definition names (dest : string) (e : event) : bool :=
  match e with
  | Stdout text | Stderr text =>
      match String.index 0 dest text with
      | Some _ => true
      | None => false
      end
  | _ => false
  end.

(** ** The mount table, as the claims speak of it *)

(** Some entry's mount directory is exactly [drive]. *)
Definition listed (entries : list mntent) (drive : string) : bool :=
  existsb (fun entry => String.eqb (mnt_dir entry) drive) entries.

(** The mount table's answer at the [q]-th query. *)
Definition mounted_at (env : Env) (q : nat) (drive : string) : bool :=
  match mtab_at env q with
  | Some entries => listed entries drive
  | None => false
  end.

(** The destinations of a pass whose own query, the [q]-th for the
    first and one later for each next, finds them mounted. *)
Fixpoint mounted_drives (env : Env) (q : nat) (drives : list string)
    : list string :=
  match drives with
  | [] => []
  | drive :: rest =>
      (if mounted_at env q drive then [drive] else [])
      ++ mounted_drives env (S q) rest
  end.

(** The mount directories [getmntent_loop] walks over: all of them up
    to and including the first that equals [drive]. *)
Fixpoint scanned_dirs (entries : list mntent) (drive : string) : list string :=
  match entries with
  | [] => []
  | entry :: rest =>
      mnt_dir entry ::
      (if String.eqb (mnt_dir entry) drive then [] else scanned_dirs rest drive)
  end.

(** The log of one mount check at the [q]-th query. *)
Definition mount_check_log (env : Env) (q : nat) (drive : string)
    : list event :=
  match mtab_at env q with
  | None => [Call_setmntent "/etc/mtab"; Stderr "Error opening /etc/mtab"]
  | Some entries =>
      Call_setmntent "/etc/mtab"
      :: map Stdout (scanned_dirs entries drive)
      ++ [Stdout (if listed entries drive then "1" else "0"); Call_endmntent]
  end.

(** The log of one Mirror invocation that is the [n]-th command run. *)
Definition mirror_log (env : Env) (n : nat) (src dest : string) : list event :=
  [Call_system (rsync_command src dest);
   if system_at env n (rsync_command src dest) =? 0
   then Stdout (sync_ok_line src dest)
   else Stderr (sync_failed_line src dest)].

(** The world after the attempt on one destination. *)
Definition after_attempt (env : Env) (drive : string) (w : World) : World :=
  if mounted_at env (mount_queries w) drive
  then count_system_call (count_mount_query w)
  else count_mount_query w.

(** The log of the attempt on one destination: the mount check, then,
    only for a mounted destination, the Mirror invocation. *)
Definition attempt_log (env : Env) (src drive : string) (w : World)
    : list event :=
  mount_check_log env (mount_queries w) drive
  ++ (if mounted_at env (mount_queries w) drive
      then mirror_log env (system_calls w) src drive
      else []).

(** ** Notification batches, as the kernel delivers them *)

(** [struct inotify_event] of <sys/inotify.h>; its [len] field is the
    number of bytes of [name], padding included. *)
Record inotify_event := {
  ev_wd : Z;
  ev_mask : Z;
  ev_cookie : Z;
  ev_name : list byte
}.

Definition ev_len (e : inotify_event) : Z := Z.of_nat (List.length (ev_name e)).

Definition byte_of_Z (z : Z) : byte :=
  match Byte.of_N (Z.to_N (z mod 2 ^ 8)) with
  | Some b => b
  | None => x00
  end.

(** The four bytes of a 32-bit field, lowest first. *)
Definition le32 (z : Z) : list byte :=
  [byte_of_Z z; byte_of_Z (z / 2 ^ 8); byte_of_Z (z / 2 ^ 16);
   byte_of_Z (z / 2 ^ 24)].

Definition encode_event (e : inotify_event) : list byte :=
  le32 (ev_wd e) ++ le32 (ev_mask e) ++ le32 (ev_cookie e)
  ++ le32 (ev_len e) ++ ev_name e.

(** A batch is the records of its events one after the other. *)
Definition encode_batch (evs : list inotify_event) : list byte :=
  flat_map encode_event evs.

Definition batch_size (evs : list inotify_event) : Z :=
  Z.of_nat (List.length (encode_batch evs)).

(** An event that triggers a dispatch: it has a name and one of the
    watched bits. *)
Definition qualifying (e : inotify_event) : bool :=
  negb (ev_len e =? 0) && negb (Z.land (ev_mask e) WATCH_MASK =? 0).

(** The dispatch a qualifying event triggers in [main]. *)
Definition change_dispatch (env : Env) (src_dir : string)
    (dest_drives : list string) : M unit :=
  cout ("Change detected in " ++ src_dir)%string ;;
  sync_to_all_drives env src_dir dest_drives.

(** A read answer the kernel can give: a failure, or a batch of whole
    records that fits the [BUF_LEN] bytes asked for. *)
Definition delivered (r : read_result) : Prop :=
  match r with
  | ReadFailed => True
  | ReadData data =>
      exists evs, data = encode_batch evs /\ batch_size evs <= BUF_LEN
  end.

(** Enough fuel for the inner loop over any batch that fits the buffer:
    one iteration per record, and a record takes at least [EVENT_SIZE]
    bytes. *)
Definition scan_fuel : nat := S (Z.to_nat (BUF_LEN / EVENT_SIZE)).

(** What [main] logs before the startup pass. *)
Definition startup_log (env : Env) (src_dir : string) : list event :=
  [Call_inotify_init;
   Call_inotify_add_watch (inotify_init_result env) src_dir WATCH_MASK;
   Stdout ("Watching " ++ src_dir ++ " for changes...")].

(** What [main] logs once the loop is left by its [break]. *)
Definition read_failure_log (fd : Z) : list event :=
  [Call_read fd; Stderr "Error reading inotify events"].

Definition cleanup_log (fd wd : Z) : list event :=
  [Call_inotify_rm_watch fd wd; Call_close fd].

(** ** Concrete runs *)

Definition mount_entry (fsname dir : string) : mntent :=
  {| mnt_fsname := fsname; mnt_dir := dir; mnt_type := "ext4";
     mnt_opts := "rw"; mnt_freq := 0; mnt_passno := 0 |}.

(** A machine where only the root and [/mnt/ssd1] are mounted, every
    command succeeds and inotify works. *)
Definition env_ssd1 : Env :=
  {| mtab_at := fun _ =>
       Some [mount_entry "/dev/sda1" "/"; mount_entry "/dev/sdb1" "/mnt/ssd1"];
     system_at := fun _ _ => 0;
     inotify_init_result := 3;
     inotify_add_watch_result := fun _ _ _ => 1 |}.

(** The same machine when [/etc/mtab] cannot be opened. *)
Definition env_no_mtab : Env :=
  {| mtab_at := fun _ => None;
     system_at := fun _ _ => 0;
     inotify_init_result := 3;
     inotify_add_watch_result := fun _ _ _ => 1 |}.

(** The same machine as [env_ssd1] when every command fails. *)
Definition env_rsync_fails : Env :=
  {| mtab_at := mtab_at env_ssd1;
     system_at := fun _ _ => 256;
     inotify_init_result := 3;
     inotify_add_watch_result := fun _ _ _ => 1 |}.

Definition initial_world : World :=
  {| mount_queries := 0; system_calls := 0; buffer := [] |}.

(** An event record for the entry [text] of the watched directory, its
    name padded with [pad] null bytes as the kernel does. *)
Definition event_for (mask : Z) (text : string) (pad : nat) : inotify_event :=
  {| ev_wd := 1; ev_mask := mask; ev_cookie := 0;
     ev_name := list_byte_of_string text ++ repeat x00 pad |}.

(** A file created and deleted again within one batch. *)
Definition create_then_delete : list inotify_event :=
  [event_for IN_CREATE "a.txt" 11; event_for IN_DELETE "a.txt" 11].

(** The world once [create_then_delete] has been read into the buffer. *)
Definition world_after_read : World :=
  store_in_buffer (encode_batch create_then_delete) initial_world.

(** The command line of the specification's scenario. *)
Definition scenario_argv : list string :=
  ["sync_to_ssds"; "/data"; "/mnt/ssd1"; "/mnt/ssd2"].

(** ** Counting in the event log *)

Definition is_setmntent (e : event) : bool :=
  match e with Call_setmntent _ => true | _ => false end.

Definition is_endmntent (e : event) : bool :=
  match e with Call_endmntent => true | _ => false end.

Definition is_read (e : event) : bool :=
  match e with Call_read _ => true | _ => false end.

Definition is_close (e : event) : bool :=
  match e with Call_close _ => true | _ => false end.

Definition count_events (p : event -> bool) (t : list event) : nat :=
  List.length (filter p t).

(** The events a dispatch pass is made of: lines, the mount table
    stream, commands. *)
Definition pass_event (e : event) : bool :=
  match e with
  | Stdout _ | Stderr _ | Call_setmntent _ | Call_endmntent
  | Call_system _ => true
  | _ => false
  end.

(** The events of the watch loop: those of a pass, and [read]. *)
Definition loop_event (e : event) : bool := pass_event e || is_read e.

(** How many of the [n] mount table queries from the [q]-th on find
    the table openable. *)
Fixpoint tables_opened (env : Env) (q n : nat) : nat :=
  match n with
  | O => O
  | S n' =>
      (match mtab_at env q with Some _ => 1 | None => 0 end
       + tables_opened env (S q) n')%nat
  end.

(** Whether a path contains a space, the separator [rsync_command]
    puts between its words. *)
Fixpoint has_space (s : string) : bool :=
  match s with
  | EmptyString => false
  | String c rest => Ascii.eqb c " "%char || has_space rest
  end.

(** ** The outcome of a run *)

Definition is_failed_read (r : read_result) : bool :=
  match r with ReadFailed => true | ReadData _ => false end.

(** Argument validation and watch setup both pass. *)
Definition setup_ok (env : Env) (argv : list string) : bool :=
  (3 <=? Z.of_nat (List.length argv))
  && (0 <=? inotify_init_result env)
  && (0 <=? inotify_add_watch_result env (inotify_init_result env)
              (nth 1 argv "") WATCH_MASK).

(** The number of [read] calls of the watch loop on the answers
    [reads]: one per answer up to the first failure, and the one that
    blocks when no answer fails. *)
Fixpoint read_calls (reads : list read_result) : nat :=
  match reads with
  | [] => 1
  | ReadFailed :: _ => 1
  | ReadData _ :: later => S (read_calls later)
  end.

(** Machines where inotify cannot be initialised, and where the watch
    cannot be added. *)
Definition env_no_inotify : Env :=
  {| mtab_at := mtab_at env_ssd1;
     system_at := fun _ _ => 0;
     inotify_init_result := -1;
     inotify_add_watch_result := fun _ _ _ => 1 |}.

Definition env_no_watch : Env :=
  {| mtab_at := mtab_at env_ssd1;
     system_at := fun _ _ => 0;
     inotify_init_result := 3;
     inotify_add_watch_result := fun _ _ _ => -1 |}.

(** A machine where [/mnt/ssd2] gets mounted after the second mount
    table query. *)
Definition env_ssd2_plugged_later : Env :=
  {| mtab_at := fun q =>
       if (q <? 2)%nat
       then Some [mount_entry "/dev/sda1" "/";
                  mount_entry "/dev/sdb1" "/mnt/ssd1"]
       else Some [mount_entry "/dev/sda1" "/";
                  mount_entry "/dev/sdb1" "/mnt/ssd1";
                  mount_entry "/dev/sdc1" "/mnt/ssd2"];
     system_at := fun _ _ => 0;
     inotify_init_result := 3;
     inotify_add_watch_result := fun _ _ _ => 1 |}.

(** An event on the watched directory itself: no name. *)
Definition nameless_event : inotify_event :=
  {| ev_wd := 1; ev_mask := IN_CREATE; ev_cookie := 0; ev_name := [] |}.

(** Bytes that are no event record. *)
Definition stray_bytes : list byte := [xff; xff; xff].

(** A buffer that holds a nameless event, the creation of [a.txt], and
    then stray bytes. *)
Definition world_with_stray_bytes : World :=
  {| mount_queries := 0; system_calls := 0;
     buffer := encode_batch [nameless_event]
               ++ encode_event (event_for IN_CREATE "a.txt" 11)
               ++ stray_bytes |}.

(** The buffer after [create_then_delete] was read over a longer,
    older content. *)
Definition world_with_stale_tail : World :=
  {| mount_queries := 0; system_calls := 0;
     buffer := encode_batch create_then_delete
               ++ encode_event (event_for IN_MODIFY "old.txt" 9) |}.

(** The read answers that deliver the given batches, none failing. *)
Definition deliver (batches : list (list inotify_event)) : list read_result :=
  map (fun evs => ReadData (encode_batch evs)) batches.

(** How many of the batches hold an event that triggers a dispatch. *)
Definition dispatching (batches : list (list inotify_event)) : nat :=
  List.length (filter (existsb qualifying) batches).

(** * Properties *)

(** ** Running the monad *)

Lemma bind_run {A B} (m : M A) (k : A -> M B) (w : World) :
  bind m k w =
  (result (k (result (m w)) (world_of (m w))),
   world_of (k (result (m w)) (world_of (m w))),
   events (m w) ++ events (k (result (m w)) (world_of (m w)))).
Proof.
  unfold bind.
  destruct (m w) as [[a w1] t1]; simpl.
  destruct (k a w1) as [[b w2] t2]; reflexivity.
Qed.

(** ** [is_drive_mounted] *)

Lemma getmntent_loop_run (entries : list mntent) (drive : string) (w : World) :
  getmntent_loop entries drive w =
  (listed entries drive, w, map Stdout (scanned_dirs entries drive)).
Proof.
  induction entries as [| entry rest IH]; simpl; [reflexivity |].
  rewrite bind_run; unfold cout, emit; simpl.
  destruct (String.eqb (mnt_dir entry) drive); simpl; [reflexivity |].
  rewrite IH; reflexivity.
Qed.

Lemma is_drive_mounted_run (env : Env) (drive : string) (w : World) :
  is_drive_mounted env drive w =
  (mounted_at env (mount_queries w) drive, count_mount_query w,
   mount_check_log env (mount_queries w) drive).
Proof.
  unfold is_drive_mounted, mounted_at, mount_check_log.
  rewrite bind_run; unfold setmntent at 1 2 3; simpl.
  destruct (mtab_at env (mount_queries w)) as [entries |]; simpl.
  - rewrite !bind_run, getmntent_loop_run; reflexivity.
  - reflexivity.
Qed.

Lemma listed_iff (entries : list mntent) (drive : string) :
  listed entries drive = true <->
  exists entry, In entry entries /\ mnt_dir entry = drive.
Proof.
  unfold listed; rewrite existsb_exists.
  split; intros [entry [Hin Heq]]; exists entry; split; trivial;
    now apply String.eqb_eq.
Qed.

(** ** [sync_directory] and [sync_to_all_drives] *)

Lemma sync_directory_run (env : Env) (src dest : string) (w : World) :
  sync_directory env src dest w =
  (tt, count_system_call w, mirror_log env (system_calls w) src dest).
Proof.
  unfold sync_directory, mirror_log.
  rewrite bind_run; unfold system at 1 2 3; simpl.
  destruct (system_at env (system_calls w) (rsync_command src dest) =? 0);
    reflexivity.
Qed.

Lemma sync_to_all_drives_cons (env : Env) (src drive : string)
    (rest : list string) (w : World) :
  sync_to_all_drives env src (drive :: rest) w =
  (tt,
   world_of (sync_to_all_drives env src rest (after_attempt env drive w)),
   attempt_log env src drive w
   ++ events (sync_to_all_drives env src rest (after_attempt env drive w))).
Proof.
  unfold after_attempt, attempt_log.
  cbn [sync_to_all_drives].
  rewrite bind_run, is_drive_mounted_run; simpl.
  destruct (mounted_at env (mount_queries w) drive); simpl.
  - rewrite bind_run, sync_directory_run; simpl.
    destruct (sync_to_all_drives env src rest _) as [[[] w2] t2]; simpl.
    rewrite <- !app_assoc; reflexivity.
  - rewrite bind_run; simpl.
    destruct (sync_to_all_drives env src rest _) as [[[] w2] t2]; simpl.
    rewrite app_nil_r; reflexivity.
Qed.

Lemma sync_to_all_drives_app (env : Env) (src : string)
    (before after : list string) (w : World) :
  sync_to_all_drives env src (before ++ after) w =
  (tt,
   world_of (sync_to_all_drives env src after
               (world_of (sync_to_all_drives env src before w))),
   events (sync_to_all_drives env src before w)
   ++ events (sync_to_all_drives env src after
                (world_of (sync_to_all_drives env src before w)))).
Proof.
  revert w; induction before as [| drive rest IH]; intros w.
  - simpl. destruct (sync_to_all_drives env src after w) as [[[] w2] t2].
    reflexivity.
  - rewrite <- app_comm_cons, !sync_to_all_drives_cons, IH; simpl.
    rewrite app_assoc; reflexivity.
Qed.

Lemma mirror_calls_app (t1 t2 : list event) :
  mirror_calls (t1 ++ t2) = mirror_calls t1 ++ mirror_calls t2.
Proof.
  induction t1 as [| e t1 IH]; simpl; [reflexivity |].
  destruct e; simpl; rewrite IH; reflexivity.
Qed.

Lemma mirror_calls_stdout (texts : list string) :
  mirror_calls (map Stdout texts) = [].
Proof. induction texts; simpl; trivial. Qed.

Lemma mirror_calls_mount_check (env : Env) (q : nat) (drive : string) :
  mirror_calls (mount_check_log env q drive) = [].
Proof.
  unfold mount_check_log.
  destruct (mtab_at env q); simpl; [| reflexivity].
  rewrite mirror_calls_app, mirror_calls_stdout; reflexivity.
Qed.

Lemma mirror_calls_mirror_log (env : Env) (n : nat) (src dest : string) :
  mirror_calls (mirror_log env n src dest) = [rsync_command src dest].
Proof.
  unfold mirror_log; simpl.
  destruct (system_at env n (rsync_command src dest) =? 0); reflexivity.
Qed.

Lemma mount_queries_after_attempt (env : Env) (drive : string) (w : World) :
  mount_queries (after_attempt env drive w) = S (mount_queries w).
Proof.
  unfold after_attempt.
  destruct (mounted_at env (mount_queries w) drive); reflexivity.
Qed.

(** ** Bytes and 32-bit fields of the buffer *)

Lemma byte_of_Z_value (z : Z) :
  Z.of_N (Byte.to_N (byte_of_Z z)) = z mod 2 ^ 8.
Proof.
  unfold byte_of_Z.
  assert (Hr : 0 <= z mod 2 ^ 8 < 2 ^ 8) by (apply Z.mod_pos_bound; lia).
  destruct (Byte.of_N (Z.to_N (z mod 2 ^ 8))) as [b |] eqn:Hb.
  - apply Byte.to_of_N in Hb. rewrite Hb. lia.
  - apply Byte.of_N_None_iff in Hb. lia.
Qed.

Lemma byte_at_app (before rest : list byte) (k : Z) :
  0 <= k ->
  byte_at (before ++ rest) (Z.of_nat (List.length before) + k) = byte_at rest k.
Proof.
  intros Hk; unfold byte_at.
  replace (Z.to_nat (Z.of_nat (List.length before) + k))
    with (List.length before + Z.to_nat k)%nat by lia.
  rewrite app_nth2_plus; reflexivity.
Qed.

Lemma uint32_at_app (before rest : list byte) (k : Z) :
  0 <= k ->
  uint32_at (before ++ rest) (Z.of_nat (List.length before) + k)
  = uint32_at rest k.
Proof.
  intros Hk; unfold uint32_at.
  rewrite <- !Z.add_assoc, !byte_at_app by lia; reflexivity.
Qed.

Lemma byte_at_head (b : byte) (rest : list byte) :
  byte_at (b :: rest) 0 = Z.of_N (Byte.to_N b).
Proof. reflexivity. Qed.

Lemma byte_at_tail (b : byte) (rest : list byte) (k : Z) :
  0 <= k -> byte_at (b :: rest) (k + 1) = byte_at rest k.
Proof.
  intros Hk; unfold byte_at.
  replace (Z.to_nat (k + 1)) with (S (Z.to_nat k)) by lia; reflexivity.
Qed.

Lemma uint32_at_le32 (z : Z) (rest : list byte) :
  uint32_at (le32 z ++ rest) 0 = z mod 2 ^ 32.
Proof.
  unfold uint32_at, le32.
  rewrite <- !app_comm_cons.
  replace (0 + 3) with (0 + 1 + 1 + 1) by reflexivity.
  replace (0 + 2) with (0 + 1 + 1) by reflexivity.
  rewrite !byte_at_tail, !byte_at_head, !byte_of_Z_value by lia.
  replace (z / 2 ^ 16) with (z / 2 ^ 8 / 2 ^ 8)
    by (rewrite Z.div_div by lia; reflexivity).
  replace (z / 2 ^ 24) with (z / 2 ^ 8 / 2 ^ 8 / 2 ^ 8)
    by (rewrite !Z.div_div by lia; reflexivity).
  change (2 ^ 8) with 256; change (2 ^ 16) with 65536;
    change (2 ^ 24) with 16777216; change (2 ^ 32) with 4294967296.
  Z.div_mod_to_equations; lia.
Qed.

Lemma length_le32 (z : Z) : List.length (le32 z) = 4%nat.
Proof. reflexivity. Qed.

Lemma length_encode_event (e : inotify_event) :
  Z.of_nat (List.length (encode_event e)) = EVENT_SIZE + ev_len e.
Proof.
  unfold encode_event, ev_len, EVENT_SIZE.
  rewrite !length_app, !length_le32; lia.
Qed.

Lemma batch_size_nil : batch_size [] = 0.
Proof. reflexivity. Qed.

Lemma batch_size_cons (e : inotify_event) (evs : list inotify_event) :
  batch_size (e :: evs) = EVENT_SIZE + ev_len e + batch_size evs.
Proof.
  unfold batch_size, encode_batch.
  change (flat_map encode_event (e :: evs))
    with (encode_event e ++ flat_map encode_event evs).
  rewrite length_app, Nat2Z.inj_add, length_encode_event; reflexivity.
Qed.

Lemma batch_size_nonneg (evs : list inotify_event) : 0 <= batch_size evs.
Proof. unfold batch_size; lia. Qed.

Lemma ev_len_nonneg (e : inotify_event) : 0 <= ev_len e.
Proof. unfold ev_len; lia. Qed.

(** The fields [main] reads at the start of a record are the fields of
    the event stored there. *)
Lemma event_mask_at (before rest : list byte) (e : inotify_event) :
  event_mask (before ++ encode_event e ++ rest) (Z.of_nat (List.length before))
  = ev_mask e mod 2 ^ 32.
Proof.
  unfold event_mask, encode_event.
  rewrite uint32_at_app by lia.
  change 4 with (Z.of_nat (List.length (le32 (ev_wd e))) + 0).
  rewrite <- !app_assoc, uint32_at_app, uint32_at_le32 by lia.
  reflexivity.
Qed.

Lemma event_len_at (before rest : list byte) (e : inotify_event) :
  event_len (before ++ encode_event e ++ rest) (Z.of_nat (List.length before))
  = ev_len e mod 2 ^ 32.
Proof.
  unfold event_len, encode_event.
  rewrite uint32_at_app by lia.
  change 12 with
    (Z.of_nat (List.length
       (le32 (ev_wd e) ++ le32 (ev_mask e) ++ le32 (ev_cookie e))) + 0).
  replace ((le32 (ev_wd e) ++ le32 (ev_mask e) ++ le32 (ev_cookie e)
            ++ le32 (ev_len e) ++ ev_name e) ++ rest)
    with ((le32 (ev_wd e) ++ le32 (ev_mask e) ++ le32 (ev_cookie e))
          ++ le32 (ev_len e) ++ ev_name e ++ rest)
    by (rewrite <- !app_assoc; reflexivity).
  rewrite uint32_at_app, uint32_at_le32 by lia.
  reflexivity.
Qed.

Lemma land_watch_mask_low (m : Z) :
  Z.land (m mod 2 ^ 32) WATCH_MASK = Z.land m WATCH_MASK.
Proof.
  rewrite <- Z.land_ones, <- Z.land_assoc by lia.
  reflexivity.
Qed.

(** No 32-bit wrap-around happens while the next index is an [int]. *)
Lemma next_index_in_buffer (i len : Z) :
  0 <= i -> 0 <= len -> i + EVENT_SIZE + len <= INT_MAX ->
  int_wrap (i + uint_wrap (EVENT_SIZE + len)) = i + EVENT_SIZE + len.
Proof.
  intros Hi Hlen Hle.
  assert (Hbuf : INT_MAX = 2147483647) by reflexivity.
  unfold int_wrap, uint_wrap in *; unfold EVENT_SIZE in *.
  change (2 ^ 32) with 4294967296; change (2 ^ 31) with 2147483648.
  rewrite (Z.mod_small (16 + len)) by lia.
  rewrite Z.mod_small by lia. lia.
Qed.

Lemma buffer_fits_int : BUF_LEN <= INT_MAX.
Proof. vm_compute; discriminate. Qed.

(** ** The inner loop over a delivered batch *)

Section BatchScan.

Variable env : Env.
Variable src_dir : string.
Variable dest_drives : list string.

(** One iteration at the start of a record: either the record triggers
    the dispatch and the loop is left, or the scan moves to the next
    record. *)
Lemma scan_events_record (fuel : nat) (before rest : list byte)
    (e : inotify_event) (length : Z) (w : World) :
  buffer w = before ++ encode_event e ++ rest ->
  Z.of_nat (List.length before) + EVENT_SIZE + ev_len e <= length ->
  length <= INT_MAX ->
  scan_events env (S fuel) src_dir dest_drives length
    (Z.of_nat (List.length before)) w
  = if qualifying e
    then Some (change_dispatch env src_dir dest_drives w)
    else scan_events env fuel src_dir dest_drives length
           (Z.of_nat (List.length before) + EVENT_SIZE + ev_len e) w.
Proof.
  intros Hbuf Hfit Hlen.
  pose proof (ev_len_nonneg e) as Hnn.
  assert (Hcap : INT_MAX = 2147483647) by reflexivity.
  assert (Hev : EVENT_SIZE = 16) by reflexivity.
  cbn [scan_events].
  destruct (Z.ltb_spec (Z.of_nat (List.length before)) length) as [_ | Hge];
    [| lia].
  rewrite Hbuf, event_len_at, event_mask_at, land_watch_mask_low.
  rewrite (Z.mod_small (ev_len e))
    by (change (2 ^ 32) with 4294967296; lia).
  rewrite next_index_in_buffer by lia.
  unfold qualifying.
  destruct (negb (ev_len e =? 0)); simpl; [| reflexivity].
  destruct (negb (Z.land (ev_mask e) WATCH_MASK =? 0)); reflexivity.
Qed.

Lemma scan_events_batch (evs : list inotify_event) :
  forall (fuel : nat) (before rest : list byte) (w : World),
  buffer w = before ++ encode_batch evs ++ rest ->
  Z.of_nat (List.length before) + batch_size evs <= INT_MAX ->
  (List.length evs < fuel)%nat ->
  scan_events env fuel src_dir dest_drives
    (Z.of_nat (List.length before) + batch_size evs)
    (Z.of_nat (List.length before)) w
  = Some (if existsb qualifying evs
          then change_dispatch env src_dir dest_drives w
          else (tt, w, [])).
Proof.
  induction evs as [| e evs IH]; intros fuel before rest w Hbuf Hcap Hfuel.
  - destruct fuel as [| fuel]; [simpl in Hfuel; lia |].
    cbn [scan_events]. rewrite batch_size_nil, Z.add_0_r, Z.ltb_irrefl.
    reflexivity.
  - destruct fuel as [| fuel]; [simpl in Hfuel; lia |].
    pose proof (batch_size_nonneg evs) as Hnn.
    rewrite batch_size_cons in Hcap |- *.
    unfold encode_batch in Hbuf.
    change (flat_map encode_event (e :: evs))
      with (encode_event e ++ encode_batch evs) in Hbuf.
    rewrite <- app_assoc in Hbuf.
    rewrite (scan_events_record fuel before (encode_batch evs ++ rest) e)
      by (trivial; lia).
    cbn [existsb].
    destruct (qualifying e); [reflexivity |]. cbn [orb].
    specialize (IH fuel (before ++ encode_event e) rest w).
    rewrite length_app, Nat2Z.inj_add, length_encode_event in IH.
    rewrite <- app_assoc in IH.
    replace (Z.of_nat (List.length before)
             + (EVENT_SIZE + ev_len e + batch_size evs))
      with (Z.of_nat (List.length before) + (EVENT_SIZE + ev_len e)
            + batch_size evs) by lia.
    replace (Z.of_nat (List.length before) + EVENT_SIZE + ev_len e)
      with (Z.of_nat (List.length before) + (EVENT_SIZE + ev_len e)) by lia.
    apply IH; [assumption | lia | simpl in Hfuel; lia].
Qed.

End BatchScan.

(** ** The outer loop *)

Section WatchLoop.

Variable env : Env.
Variable src_dir : string.
Variable dest_drives : list string.
Variable fd : Z.

Lemma batch_record_count (evs : list inotify_event) :
  EVENT_SIZE * Z.of_nat (List.length evs) <= batch_size evs.
Proof.
  induction evs as [| e evs IH]; [rewrite batch_size_nil; simpl; lia |].
  rewrite batch_size_cons. pose proof (ev_len_nonneg e).
  cbn [List.length]. unfold EVENT_SIZE in *. lia.
Qed.

Lemma scan_fuel_enough (evs : list inotify_event) (fuel : nat) :
  batch_size evs <= BUF_LEN -> (scan_fuel <= fuel)%nat ->
  (List.length evs < fuel)%nat.
Proof.
  intros Hcap Hfuel. pose proof (batch_record_count evs) as Hcount.
  assert (Hn : scan_fuel = 2049%nat) by reflexivity.
  assert (Hb : BUF_LEN = 32768) by reflexivity.
  unfold EVENT_SIZE in Hcount. lia.
Qed.

Lemma watch_loop_blocked (fuel : nat) (w : World) :
  watch_loop env fuel src_dir dest_drives fd [] w
  = Some (Blocked_in_read, w, [Call_read fd]).
Proof. reflexivity. Qed.

Lemma watch_loop_read_failed (fuel : nat) (later : list read_result)
    (w : World) :
  watch_loop env fuel src_dir dest_drives fd (ReadFailed :: later) w
  = Some (Broke, w, read_failure_log fd).
Proof. reflexivity. Qed.

(** One turn of the loop on a delivered batch: the read, at most one
    dispatch, then the rest of the loop. *)
Lemma watch_loop_batch (fuel : nat) (evs : list inotify_event)
    (later : list read_result) (w : World) :
  batch_size evs <= BUF_LEN -> (scan_fuel <= fuel)%nat ->
  watch_loop env fuel src_dir dest_drives fd
    (ReadData (encode_batch evs) :: later) w
  = let w1 := store_in_buffer (encode_batch evs) w in
    let turn := if existsb qualifying evs
                then change_dispatch env src_dir dest_drives w1
                else (tt, w1, []) in
    match watch_loop env fuel src_dir dest_drives fd later (world_of turn) with
    | None => None
    | Some (how, w2, t2) => Some (how, w2, Call_read fd :: events turn ++ t2)
    end.
Proof.
  intros Hcap Hfuel.
  cbn [watch_loop]. unfold bindF at 1. unfold lift at 1, read at 1.
  pose proof (batch_size_nonneg evs) as Hnn.
  destruct (Z.ltb_spec (Z.of_nat (List.length (encode_batch evs))) 0)
    as [Hneg | _]; [lia |].
  unfold bindF.
  pose proof (scan_events_batch env src_dir dest_drives evs fuel []
                (skipn (List.length (encode_batch evs)) (buffer w))
                (store_in_buffer (encode_batch evs) w)) as Hscan.
  cbn [List.length Z.of_nat Z.add app] in Hscan.
  unfold batch_size in Hscan, Hcap.
  rewrite Hscan; [| reflexivity
                  | pose proof buffer_fits_int; lia
                  | apply scan_fuel_enough; assumption].
  cbv zeta.
  destruct (if existsb qualifying evs
            then change_dispatch env src_dir dest_drives
                   (store_in_buffer (encode_batch evs) w)
            else (tt, store_in_buffer (encode_batch evs) w, []))
    as [[[] w1] t1]; simpl.
  destruct (watch_loop env fuel src_dir dest_drives fd later w1)
    as [[[how w2] t2] |]; reflexivity.
Qed.

(** On delivered answers the loop always comes to a result, and the
    first thing it does is a [read]. *)
Lemma watch_loop_returns (fuel : nat) (reads : list read_result) :
  Forall delivered reads -> (scan_fuel <= fuel)%nat ->
  forall w : World,
  exists how w' rest,
    watch_loop env fuel src_dir dest_drives fd reads w
    = Some (how, w', Call_read fd :: rest).
Proof.
  intros Hreads Hfuel.
  induction Hreads as [| r later Hr _ IH]; intros w.
  - rewrite watch_loop_blocked. now exists Blocked_in_read, w, [].
  - destruct r as [| data].
    + rewrite watch_loop_read_failed. now exists Broke, w, [Stderr "Error reading inotify events"].
    + destruct Hr as [evs [-> Hcap]].
      rewrite watch_loop_batch by assumption. cbv zeta.
      match goal with
      | |- context [watch_loop _ _ _ _ _ later ?w1] =>
          destruct (IH w1) as [how [w2 [rest Hlater]]]; rewrite Hlater
      end.
      eexists _, _, _; reflexivity.
Qed.

(** Once an answer is a failure the loop is left by its [break], and
    the last things logged are the failed [read] and its diagnostic. *)
Lemma watch_loop_breaks (fuel : nat) (reads : list read_result) :
  Forall delivered reads -> In ReadFailed reads -> (scan_fuel <= fuel)%nat ->
  forall w : World,
  exists w' t,
    watch_loop env fuel src_dir dest_drives fd reads w
    = Some (Broke, w', t ++ read_failure_log fd).
Proof.
  intros Hreads Hin Hfuel.
  induction Hreads as [| r later Hr _ IH]; intros w; [destruct Hin |].
  destruct r as [| data].
  - rewrite watch_loop_read_failed. now exists w, [].
  - destruct Hin as [Hin | Hin]; [discriminate |].
    destruct Hr as [evs [-> Hcap]].
    rewrite watch_loop_batch by assumption. cbv zeta.
    match goal with
    | |- context [watch_loop _ _ _ _ _ later ?w1] =>
        destruct (IH Hin w1) as [w2 [t Hlater]]; rewrite Hlater
    end.
    eexists _, (Call_read fd :: _ ++ t).
    rewrite <- app_comm_cons, <- app_assoc; reflexivity.
Qed.

End WatchLoop.

(** ** [main] *)

(** A run that passes argument validation and watch setup is the
    startup log, the startup pass, and then the watch loop. *)
Lemma main_watching (env : Env) (fuel : nat) (argv : list string)
    (reads : list read_result) (w : World) :
  3 <= Z.of_nat (List.length argv) ->
  0 <= inotify_init_result env ->
  0 <= inotify_add_watch_result env (inotify_init_result env)
         (nth 1 argv "") WATCH_MASK ->
  main env fuel argv reads w
  = let src_dir := nth 1 argv "" in
    let dest_drives := skipn 2 argv in
    let fd := inotify_init_result env in
    let wd := inotify_add_watch_result env fd src_dir WATCH_MASK in
    let pass := sync_to_all_drives env src_dir dest_drives w in
    match watch_loop env fuel src_dir dest_drives fd reads (world_of pass) with
    | None => None
    | Some (Blocked_in_read, w', t) =>
        Some (Running, w', startup_log env src_dir ++ events pass ++ t)
    | Some (Broke, w', t) =>
        Some (Exit 0, w',
              startup_log env src_dir ++ events pass ++ t ++ cleanup_log fd wd)
    end.
Proof.
  intros Hargc Hfd Hwd. unfold main, startup_log.
  destruct (Z.ltb_spec (Z.of_nat (List.length argv)) 3) as [Hlt | _]; [lia |].
  set (src_dir := nth 1 argv "") in *.
  set (dest_drives := skipn 2 argv). clearbody src_dir dest_drives.
  cbv zeta. unfold bindF at 1. unfold lift at 1, inotify_init at 1.
  destruct (Z.ltb_spec (inotify_init_result env) 0) as [Hlt | _]; [lia |].
  unfold bindF at 1. unfold lift at 1, inotify_add_watch at 1.
  destruct (Z.ltb_spec
              (inotify_add_watch_result env (inotify_init_result env)
                 src_dir WATCH_MASK) 0) as [Hlt | _]; [lia |].
  unfold bindF at 1. unfold lift at 1, cout at 1, emit at 1.
  unfold bindF at 1. unfold lift at 1.
  destruct (sync_to_all_drives env src_dir dest_drives w)
    as [[[] w1] t1]; simpl.
  unfold bindF.
  destruct (watch_loop env fuel src_dir dest_drives
              (inotify_init_result env) reads w1) as [[[how w2] t2] |];
    [| reflexivity].
  destruct how; unfold lift, cleanup_log; simpl.
  - reflexivity.
  - rewrite !app_nil_r; reflexivity.
Qed.

(** ** The claims about the mount check *)

(** C7. When the mount table can be read, [is_drive_mounted drive]
    returns true if and only if some entry's mount directory is equal
    to [drive] as a string, character for character; nothing is
    normalised on either side. *)
Theorem is_drive_mounted_exact (env : Env) (drive : string)
    (entries : list mntent) (w : World) :
  mtab_at env (mount_queries w) = Some entries ->
  (result (is_drive_mounted env drive w) = true <->
   exists entry, In entry entries /\ mnt_dir entry = drive).
Proof.
  intros Hmtab. rewrite is_drive_mounted_run; simpl.
  unfold mounted_at; rewrite Hmtab. apply listed_iff.
Qed.

Lemma is_drive_mounted_exact_witness :
  result (is_drive_mounted env_ssd1 "/mnt/ssd1" initial_world) = true <->
  exists entry,
    In entry [mount_entry "/dev/sda1" "/"; mount_entry "/dev/sdb1" "/mnt/ssd1"]
    /\ mnt_dir entry = "/mnt/ssd1".
Proof.
  apply (is_drive_mounted_exact env_ssd1 "/mnt/ssd1"); reflexivity.
Defined.

(** A trailing slash makes a different path: [/mnt/ssd1/] is not found
    mounted when the table lists [/mnt/ssd1]. *)
Example trailing_slash_is_not_mounted :
  result (is_drive_mounted env_ssd1 "/mnt/ssd1/" initial_world) = false.
Proof. reflexivity. Qed.

(** C6. When the mount table cannot be opened, [is_drive_mounted]
    logs the condition on standard error and answers false; the pass
    runs no command for that destination and goes on with the next
    ones; and the process stays alive: with that single destination,
    [main] gets through its startup pass and sits in its first
    [read]. *)
Theorem mount_table_unavailable (env : Env) (fuel : nat)
    (prog src drive : string) (w : World) :
  mtab_at env (mount_queries w) = None ->
  0 <= inotify_init_result env ->
  0 <= inotify_add_watch_result env (inotify_init_result env) src WATCH_MASK ->
  is_drive_mounted env drive w
  = (false, count_mount_query w,
     [Call_setmntent "/etc/mtab"; Stderr "Error opening /etc/mtab"])
  /\ (forall rest : list string,
        sync_to_all_drives env src (drive :: rest) w
        = (tt,
           world_of (sync_to_all_drives env src rest (count_mount_query w)),
           [Call_setmntent "/etc/mtab"; Stderr "Error opening /etc/mtab"]
           ++ events (sync_to_all_drives env src rest (count_mount_query w))))
  /\ main env fuel [prog; src; drive] [] w
     = Some (Running, count_mount_query w,
             startup_log env src
             ++ [Call_setmntent "/etc/mtab"; Stderr "Error opening /etc/mtab"]
             ++ [Call_read (inotify_init_result env)]).
Proof.
  intros Hmtab Hfd Hwd.
  assert (Hcheck : is_drive_mounted env drive w
                   = (false, count_mount_query w,
                      [Call_setmntent "/etc/mtab";
                       Stderr "Error opening /etc/mtab"])).
  { rewrite is_drive_mounted_run.
    unfold mounted_at, mount_check_log; rewrite Hmtab; reflexivity. }
  assert (Hpass : forall rest : list string,
            sync_to_all_drives env src (drive :: rest) w
            = (tt,
               world_of (sync_to_all_drives env src rest (count_mount_query w)),
               [Call_setmntent "/etc/mtab"; Stderr "Error opening /etc/mtab"]
               ++ events (sync_to_all_drives env src rest
                            (count_mount_query w)))).
  { intros rest. rewrite sync_to_all_drives_cons.
    unfold after_attempt, attempt_log, mounted_at, mount_check_log.
    rewrite Hmtab; reflexivity. }
  repeat split; trivial.
  rewrite main_watching by (trivial; simpl; lia).
  cbv zeta.
  change (skipn 2 [prog; src; drive]) with [drive].
  change (nth 1 [prog; src; drive] "") with src.
  rewrite Hpass, watch_loop_blocked; reflexivity.
Qed.

Lemma mount_table_unavailable_witness :
  is_drive_mounted env_no_mtab "/mnt/ssd1" initial_world
  = (false, count_mount_query initial_world,
     [Call_setmntent "/etc/mtab"; Stderr "Error opening /etc/mtab"])
  /\ (forall rest : list string,
        sync_to_all_drives env_no_mtab "/data" ("/mnt/ssd1" :: rest)
          initial_world
        = (tt,
           world_of (sync_to_all_drives env_no_mtab "/data" rest
                       (count_mount_query initial_world)),
           [Call_setmntent "/etc/mtab"; Stderr "Error opening /etc/mtab"]
           ++ events (sync_to_all_drives env_no_mtab "/data" rest
                        (count_mount_query initial_world))))
  /\ main env_no_mtab 1 ["sync_to_ssds"; "/data"; "/mnt/ssd1"] [] initial_world
     = Some (Running, count_mount_query initial_world,
             startup_log env_no_mtab "/data"
             ++ [Call_setmntent "/etc/mtab"; Stderr "Error opening /etc/mtab"]
             ++ [Call_read (inotify_init_result env_no_mtab)]).
Proof.
  apply (mount_table_unavailable env_no_mtab 1 "sync_to_ssds" "/data"
           "/mnt/ssd1" initial_world).
  - reflexivity.
  - simpl; lia.
  - simpl; lia.
Defined.

(** ** The claims about a dispatch pass *)

(** C1. In one pass of [sync_to_all_drives], the commands handed to
    [system] are, in list order, the Mirror command of each destination
    whose own mount check answered true, once per such position of the
    list and never for the others; this holds for every environment,
    that is whatever status the commands return; every destination of
    the list gets its mount check; and the answer of a mount check is
    the answer of the mount table at the time of that check. *)
Theorem dispatch_mirrors_the_mounted (env : Env) (src : string)
    (drives : list string) (w : World) :
  mirror_calls (events (sync_to_all_drives env src drives w))
  = map (rsync_command src) (mounted_drives env (mount_queries w) drives)
  /\ mount_queries (world_of (sync_to_all_drives env src drives w))
     = (mount_queries w + List.length drives)%nat
  /\ (forall (drive : string) (w' : World),
        result (is_drive_mounted env drive w')
        = mounted_at env (mount_queries w') drive).
Proof.
  assert (Hcheck : forall (drive : string) (w' : World),
            result (is_drive_mounted env drive w')
            = mounted_at env (mount_queries w') drive)
    by (intros; rewrite is_drive_mounted_run; reflexivity).
  cut (mirror_calls (events (sync_to_all_drives env src drives w))
       = map (rsync_command src) (mounted_drives env (mount_queries w) drives)
       /\ mount_queries (world_of (sync_to_all_drives env src drives w))
          = (mount_queries w + List.length drives)%nat);
    [intros [H1 H2]; repeat split; assumption |].
  clear Hcheck.
  revert w; induction drives as [| drive rest IH]; intros w.
  - simpl; split; [reflexivity | lia].
  - rewrite sync_to_all_drives_cons; simpl.
    destruct (IH (after_attempt env drive w)) as [IHcalls IHqueries].
    rewrite mount_queries_after_attempt in IHcalls, IHqueries.
    split; [| lia].
    unfold attempt_log.
    rewrite !mirror_calls_app, mirror_calls_mount_check, IHcalls, map_app.
    destruct (mounted_at env (mount_queries w) drive).
    + rewrite mirror_calls_mirror_log; reflexivity.
    + reflexivity.
Qed.

(** The scenario of the specification: source [/data], destinations
    [/mnt/ssd1] and [/mnt/ssd2], only the first mounted. *)
Example startup_scenario :
  mirror_calls
    (events (sync_to_all_drives env_ssd1 "/data" ["/mnt/ssd1"; "/mnt/ssd2"]
               initial_world))
  = ["rsync -avz --delete /data /mnt/ssd1"].
Proof. reflexivity. Qed.

(** A failed Mirror does not stop the pass: the next destination is
    checked and mirrored all the same. *)
Example failed_mirror_does_not_stop_the_pass :
  events (sync_to_all_drives env_rsync_fails "/data" ["/mnt/ssd1"; "/mnt/ssd1"]
            initial_world)
  = [Call_setmntent "/etc/mtab"; Stdout "/"; Stdout "/mnt/ssd1"; Stdout "1";
     Call_endmntent; Call_system "rsync -avz --delete /data /mnt/ssd1";
     Stderr "Error syncing /data to /mnt/ssd1";
     Call_setmntent "/etc/mtab"; Stdout "/"; Stdout "/mnt/ssd1"; Stdout "1";
     Call_endmntent; Call_system "rsync -avz --delete /data /mnt/ssd1";
     Stderr "Error syncing /data to /mnt/ssd1"].
Proof. reflexivity. Qed.

Lemma lines_app (t1 t2 : list event) : lines (t1 ++ t2) = lines t1 ++ lines t2.
Proof. apply filter_app. Qed.

Lemma lines_stdout (texts : list string) :
  lines (map Stdout texts) = map Stdout texts.
Proof.
  induction texts as [| text texts IH]; [reflexivity |].
  unfold lines in *; cbn [map filter is_line]; rewrite IH; reflexivity.
Qed.

(** C4, as the code has it.  The log of a pass is the log of the
    attempts on its destinations, one after the other.  The lines of an
    attempt are the lines of its mount check (the mount directories
    walked over and then the flag 1 or 0, or the diagnostic when the
    mount table cannot be opened), followed, exactly when the
    destination was found mounted, by one line: the success line
    if the command returned 0, the failure line otherwise.  An
    unmounted destination adds no line of its own. *)
Theorem attempt_outcome_line (env : Env) (src : string)
    (before : list string) (drive : string) (after : list string)
    (w : World) :
  let w1 := world_of (sync_to_all_drives env src before w) in
  let q := mount_queries w1 in
  events (sync_to_all_drives env src (before ++ drive :: after) w)
  = events (sync_to_all_drives env src before w)
    ++ attempt_log env src drive w1
    ++ events (sync_to_all_drives env src after (after_attempt env drive w1))
  /\ lines (attempt_log env src drive w1)
     = lines (mount_check_log env q drive)
       ++ (if mounted_at env q drive
           then [if system_at env (system_calls w1) (rsync_command src drive)
                    =? 0
                 then Stdout (sync_ok_line src drive)
                 else Stderr (sync_failed_line src drive)]
           else [])
  /\ lines (mount_check_log env q drive)
     = match mtab_at env q with
       | None => [Stderr "Error opening /etc/mtab"]
       | Some entries =>
           map Stdout (scanned_dirs entries drive)
           ++ [Stdout (if listed entries drive then "1" else "0")]
       end.
Proof.
  cbv zeta. repeat split.
  - rewrite sync_to_all_drives_app, sync_to_all_drives_cons; reflexivity.
  - unfold attempt_log. rewrite lines_app.
    destruct (mounted_at env _ drive); [| reflexivity].
    unfold mirror_log.
    destruct (system_at env _ (rsync_command src drive) =? 0); reflexivity.
  - unfold mount_check_log.
    destruct (mtab_at env _) as [entries |]; [| reflexivity].
    change (lines (Call_setmntent "/etc/mtab" :: ?t)) with (lines t).
    rewrite lines_app, lines_stdout; reflexivity.
Qed.

(** C4, as stated, fails for a destination that is not mounted: with
    [/] and [/mnt/ssd1] mounted, the attempt on [/mnt/ssd2] runs no
    command and writes three lines, the two mount directories and the
    flag 0.  These are the lines of the mount check alone, the pass
    adds nothing to them, and none of them names the skipped
    destination. *)
Lemma skipped_destination_has_no_status_line :
  let log :=
    events (sync_to_all_drives env_ssd1 "/data" ["/mnt/ssd2"] initial_world) in
  mirror_calls log = []
  /\ lines log = [Stdout "/"; Stdout "/mnt/ssd1"; Stdout "0"]
  /\ lines log
     = lines (events (is_drive_mounted env_ssd1 "/mnt/ssd2" initial_world))
  /\ ~ (exists e, In e (lines log) /\ names "/mnt/ssd2" e = true).
Proof.
  cbv zeta. repeat split.
  intros [e [Hin Hnames]].
  vm_compute in Hin.
  destruct Hin as [<- | [<- | [<- | []]]]; vm_compute in Hnames; discriminate.
Qed.

(** C5, at a source path that contains a blank.  The command line is
    the plain concatenation of the fixed words and the two paths, so
    the pair ([/my data], [/mnt/ssd1]) gives the very same command line
    as the pair ([/my], [data /mnt/ssd1]): the words the tool is
    started with cannot be the two paths in both cases. *)
Theorem sync_directory_blank_in_path (env : Env) (w : World) :
  mirror_calls (events (sync_directory env "/my data" "/mnt/ssd1" w))
  = ["rsync -avz --delete /my data /mnt/ssd1"]
  /\ mirror_calls (events (sync_directory env "/my" "data /mnt/ssd1" w))
     = ["rsync -avz --delete /my data /mnt/ssd1"]
  /\ rsync_command "/my data" "/mnt/ssd1" = rsync_command "/my" "data /mnt/ssd1".
Proof.
  rewrite !sync_directory_run; simpl events.
  rewrite !mirror_calls_mirror_log. repeat split.
Qed.

(** ** The claims about the notification loop *)

Lemma encode_batch_app (evs1 evs2 : list inotify_event) :
  encode_batch (evs1 ++ evs2) = encode_batch evs1 ++ encode_batch evs2.
Proof. apply flat_map_app. Qed.

Lemma batch_size_app (evs1 evs2 : list inotify_event) :
  batch_size (evs1 ++ evs2) = batch_size evs1 + batch_size evs2.
Proof.
  unfold batch_size. rewrite encode_batch_app, length_app; lia.
Qed.

Lemma qualifying_needs_name (wd mask cookie : Z) :
  qualifying {| ev_wd := wd; ev_mask := mask; ev_cookie := cookie;
                ev_name := [] |} = false.
Proof. reflexivity. Qed.

(** C2. Processing one delivered batch, that is the [read] and the
    inner loop of [main] started at index 0, makes exactly one call of
    [sync_to_all_drives] (after the change line) when the batch holds
    at least one event with a non-empty name and a watched bit, however
    many such events follow, and makes none otherwise; an event whose
    name is empty never counts, whatever its mask. *)
Theorem one_dispatch_per_batch (env : Env) (fuel : nat) (src : string)
    (drives : list string) (fd : Z) (evs : list inotify_event) (w : World) :
  batch_size evs <= BUF_LEN ->
  (scan_fuel <= fuel)%nat ->
  let w1 := store_in_buffer (encode_batch evs) w in
  let pass := sync_to_all_drives env src drives w1 in
  bindF (lift (read fd (ReadData (encode_batch evs))))
    (fun length => scan_events env fuel src drives length 0) w
  = Some (if existsb qualifying evs
          then (tt, world_of pass,
                Call_read fd
                :: Stdout ("Change detected in " ++ src)%string
                :: events pass)
          else (tt, w1, [Call_read fd]))
  /\ (forall wd mask cookie : Z,
        qualifying {| ev_wd := wd; ev_mask := mask; ev_cookie := cookie;
                      ev_name := [] |} = false).
Proof.
  intros Hcap Hfuel; cbv zeta. split; [| apply qualifying_needs_name].
  unfold bindF, lift, read.
  pose proof (scan_events_batch env src drives evs fuel []
                (skipn (List.length (encode_batch evs)) (buffer w))
                (store_in_buffer (encode_batch evs) w)) as Hscan.
  cbn [List.length Z.of_nat Z.add app] in Hscan.
  unfold batch_size in Hscan, Hcap.
  rewrite Hscan; [| reflexivity
                  | pose proof buffer_fits_int; lia
                  | apply scan_fuel_enough; assumption].
  destruct (existsb qualifying evs); [| reflexivity].
  unfold change_dispatch. rewrite bind_run; simpl.
  destruct (sync_to_all_drives env src drives _) as [[[] w2] t2]; reflexivity.
Qed.

Lemma one_dispatch_per_batch_witness :
  let w1 := store_in_buffer (encode_batch create_then_delete) initial_world in
  let pass := sync_to_all_drives env_ssd1 "/data" ["/mnt/ssd1"] w1 in
  bindF (lift (read 3 (ReadData (encode_batch create_then_delete))))
    (fun length => scan_events env_ssd1 scan_fuel "/data" ["/mnt/ssd1"]
                     length 0) initial_world
  = Some (if existsb qualifying create_then_delete
          then (tt, world_of pass,
                Call_read 3
                :: Stdout ("Change detected in " ++ "/data")%string
                :: events pass)
          else (tt, w1, [Call_read 3]))
  /\ (forall wd mask cookie : Z,
        qualifying {| ev_wd := wd; ev_mask := mask; ev_cookie := cookie;
                      ev_name := [] |} = false).
Proof.
  apply (one_dispatch_per_batch env_ssd1 scan_fuel "/data" ["/mnt/ssd1"] 3
           create_then_delete initial_world).
  - vm_compute; discriminate.
  - apply Nat.le_refl.
Defined.

(** A file created and then deleted within one batch: one change line
    and one pass, not two. *)
Example create_then_delete_one_pass :
  option_map events
    (bindF (lift (read 3 (ReadData (encode_batch create_then_delete))))
       (fun length => scan_events env_ssd1 scan_fuel "/data" ["/mnt/ssd1"]
                        length 0) initial_world)
  = Some [Call_read 3; Stdout "Change detected in /data";
          Call_setmntent "/etc/mtab"; Stdout "/"; Stdout "/mnt/ssd1";
          Stdout "1"; Call_endmntent;
          Call_system "rsync -avz --delete /data /mnt/ssd1";
          Stdout "Successfully synced /data to /mnt/ssd1"].
Proof. vm_compute. reflexivity. Qed.

(** C10. On a batch of whole records whose length fits the [int]
    variable [length], the inner loop of [main] comes to its end with
    one unit of fuel per record and one more; at the start of each
    record the next index is the index plus the header size plus the
    record's name length, which is strictly larger and at most the
    length of the batch. *)
Theorem scan_events_terminates (env : Env) (fuel : nat) (src : string)
    (drives : list string) (evs : list inotify_event) (rest : list byte)
    (w : World) :
  buffer w = encode_batch evs ++ rest ->
  batch_size evs <= INT_MAX ->
  (List.length evs < fuel)%nat ->
  (exists r, scan_events env fuel src drives (batch_size evs) 0 w = Some r)
  /\ (forall (before : list inotify_event) (e : inotify_event)
             (after : list inotify_event),
        evs = before ++ e :: after ->
        let i := batch_size before in
        let next :=
          int_wrap (i + uint_wrap (EVENT_SIZE + event_len (buffer w) i)) in
        next = i + EVENT_SIZE + ev_len e /\ i < next <= batch_size evs).
Proof.
  intros Hbuf Hcap Hfuel. split.
  - eexists.
    apply (scan_events_batch env src drives evs fuel [] rest w); assumption.
  - intros before e after ->. cbv zeta.
    pose proof (batch_size_nonneg before) as Hb.
    pose proof (batch_size_nonneg after) as Ha.
    pose proof (ev_len_nonneg e) as He.
    assert (Hev : EVENT_SIZE = 16) by reflexivity.
    assert (Hmax : INT_MAX = 2147483647) by reflexivity.
    rewrite batch_size_app, batch_size_cons in Hcap |- *.
    rewrite encode_batch_app in Hbuf.
    change (encode_batch (e :: after))
      with (encode_event e ++ encode_batch after) in Hbuf.
    rewrite <- !app_assoc in Hbuf.
    unfold batch_size at 1 4. rewrite Hbuf, event_len_at.
    fold (batch_size before).
    rewrite (Z.mod_small (ev_len e))
      by (change (2 ^ 32) with 4294967296; lia).
    rewrite next_index_in_buffer by lia. lia.
Qed.

Lemma scan_events_terminates_witness :
  (exists r,
     scan_events env_ssd1 3 "/data" ["/mnt/ssd1"]
       (batch_size create_then_delete) 0 world_after_read = Some r)
  /\ (let i := batch_size [event_for IN_CREATE "a.txt" 11] in
      let next :=
        int_wrap (i + uint_wrap (EVENT_SIZE
                                 + event_len (buffer world_after_read) i)) in
      next = i + EVENT_SIZE + ev_len (event_for IN_DELETE "a.txt" 11)
      /\ i < next <= batch_size create_then_delete).
Proof.
  destruct (scan_events_terminates env_ssd1 3 "/data" ["/mnt/ssd1"]
              create_then_delete [] world_after_read) as [Hends Hstep].
  - reflexivity.
  - vm_compute; discriminate.
  - simpl; lia.
  - split; [exact Hends |].
    exact (Hstep [event_for IN_CREATE "a.txt" 11]
             (event_for IN_DELETE "a.txt" 11) [] eq_refl).
Defined.

Lemma no_read_in_pass (env : Env) (src : string) (drives : list string) :
  forall (w : World) (fd : Z),
  ~ In (Call_read fd) (events (sync_to_all_drives env src drives w)).
Proof.
  induction drives as [| drive rest IH]; intros w fd; [intros [] |].
  rewrite sync_to_all_drives_cons; simpl.
  unfold attempt_log, mount_check_log, mirror_log.
  rewrite !in_app_iff. intros [[Hcheck | Hmirror] | Hrest].
  - destruct (mtab_at env (mount_queries w)) as [entries |].
    + destruct Hcheck as [Hc | Hc]; [discriminate |].
      apply in_app_iff in Hc. destruct Hc as [Hc | Hc].
      * apply in_map_iff in Hc. destruct Hc as [text [Hc _]]; discriminate.
      * destruct Hc as [Hc | [Hc | []]]; discriminate.
    + destruct Hcheck as [Hc | [Hc | []]]; discriminate.
  - destruct (mounted_at env (mount_queries w) drive); [| destruct Hmirror].
    destruct Hmirror as [Hm | [Hm | []]]; [discriminate |].
    destruct (system_at env _ _ =? 0); discriminate.
  - exact (IH _ fd Hrest).
Qed.

(** C9. In a run that passes argument validation and watch setup,
    [main] logs its setup, then the whole of one pass of
    [sync_to_all_drives], and only then issues its first [read]; no
    [read] occurs before the end of that pass.  With no notification
    at all the run is exactly the setup, the pass and the [read] in
    which the process stays. *)
Theorem startup_pass_before_first_read (env : Env) (fuel : nat)
    (argv : list string) (reads : list read_result) (w : World) :
  3 <= Z.of_nat (List.length argv) ->
  0 <= inotify_init_result env ->
  0 <= inotify_add_watch_result env (inotify_init_result env)
         (nth 1 argv "") WATCH_MASK ->
  Forall delivered reads ->
  (scan_fuel <= fuel)%nat ->
  let src_dir := nth 1 argv "" in
  let fd := inotify_init_result env in
  let pass := sync_to_all_drives env src_dir (skipn 2 argv) w in
  (exists out w' rest,
     main env fuel argv reads w
     = Some (out, w',
             startup_log env src_dir ++ events pass ++ Call_read fd :: rest))
  /\ main env fuel argv [] w
     = Some (Running, world_of pass,
             startup_log env src_dir ++ events pass ++ [Call_read fd])
  /\ (forall fd' : Z,
        ~ In (Call_read fd') (startup_log env src_dir ++ events pass)).
Proof.
  intros Hargc Hfd Hwd Hreads Hfuel; cbv zeta. repeat split.
  - rewrite main_watching by assumption. cbv zeta.
    destruct (watch_loop_returns env (nth 1 argv "") (skipn 2 argv)
                (inotify_init_result env) fuel reads Hreads Hfuel
                (world_of (sync_to_all_drives env (nth 1 argv "")
                             (skipn 2 argv) w)))
      as [how [w' [rest Hloop]]].
    rewrite Hloop. destruct how.
    + eexists _, _, (rest ++ cleanup_log _ _).
      rewrite <- app_comm_cons; reflexivity.
    + eexists _, _, rest; reflexivity.
  - rewrite main_watching by assumption. cbv zeta.
    rewrite watch_loop_blocked; reflexivity.
  - intros fd' Hin. apply in_app_iff in Hin. destruct Hin as [Hin | Hin].
    + destruct Hin as [Hin | [Hin | [Hin | []]]]; discriminate.
    + exact (no_read_in_pass _ _ _ _ _ Hin).
Qed.

Lemma startup_pass_before_first_read_witness :
  let src_dir := nth 1 scenario_argv "" in
  let fd := inotify_init_result env_ssd1 in
  let pass :=
    sync_to_all_drives env_ssd1 src_dir (skipn 2 scenario_argv) initial_world in
  (exists out w' rest,
     main env_ssd1 scan_fuel scenario_argv
       [ReadData (encode_batch create_then_delete)] initial_world
     = Some (out, w',
             startup_log env_ssd1 src_dir ++ events pass
             ++ Call_read fd :: rest))
  /\ main env_ssd1 scan_fuel scenario_argv [] initial_world
     = Some (Running, world_of pass,
             startup_log env_ssd1 src_dir ++ events pass ++ [Call_read fd])
  /\ (forall fd' : Z,
        ~ In (Call_read fd') (startup_log env_ssd1 src_dir ++ events pass)).
Proof.
  apply (startup_pass_before_first_read env_ssd1 scan_fuel scenario_argv
           [ReadData (encode_batch create_then_delete)] initial_world).
  - simpl; lia.
  - simpl; lia.
  - simpl; lia.
  - constructor; [| constructor].
    exists create_then_delete.
    split; [reflexivity | vm_compute; discriminate].
  - apply Nat.le_refl.
Defined.

(** C8. With the program name followed by no argument or by one,
    [main] writes the usage line on standard error and returns 1; it
    opens no mount table and runs no command, the world is left as it
    was. *)
Theorem usage_on_too_few_arguments (env : Env) (fuel : nat) (prog : string)
    (args : list string) (reads : list read_result) (w : World) :
  (List.length args < 2)%nat ->
  main env fuel (prog :: args) reads w
  = Some (Exit 1, w, [Stderr (usage_line prog)]).
Proof.
  intros Hargs. unfold main.
  destruct (Z.ltb_spec (Z.of_nat (List.length (prog :: args))) 3)
    as [_ | Hge]; [reflexivity |].
  cbn [List.length] in Hge; lia.
Qed.

Lemma usage_on_too_few_arguments_witness :
  main env_ssd1 scan_fuel ["sync_to_ssds"; "/data"] [] initial_world
  = Some (Exit 1, initial_world, [Stderr (usage_line "sync_to_ssds")]).
Proof.
  apply (usage_on_too_few_arguments env_ssd1 scan_fuel "sync_to_ssds"
           ["/data"] [] initial_world).
  simpl; lia.
Defined.

(** C3, what the code does.  When an answer of [read] is a failure,
    [main] writes the diagnostic on standard error, leaves the loop,
    removes the watch, closes the descriptor, and returns 0. *)
Theorem read_failure_returns_zero (env : Env) (fuel : nat)
    (argv : list string) (reads : list read_result) (w : World) :
  3 <= Z.of_nat (List.length argv) ->
  0 <= inotify_init_result env ->
  0 <= inotify_add_watch_result env (inotify_init_result env)
         (nth 1 argv "") WATCH_MASK ->
  Forall delivered reads ->
  In ReadFailed reads ->
  (scan_fuel <= fuel)%nat ->
  let fd := inotify_init_result env in
  let wd := inotify_add_watch_result env fd (nth 1 argv "") WATCH_MASK in
  exists w' t,
    main env fuel argv reads w
    = Some (Exit 0, w', t ++ read_failure_log fd ++ cleanup_log fd wd).
Proof.
  intros Hargc Hfd Hwd Hreads Hin Hfuel; cbv zeta.
  rewrite main_watching by assumption. cbv zeta.
  destruct (watch_loop_breaks env (nth 1 argv "") (skipn 2 argv)
              (inotify_init_result env) fuel reads Hreads Hin Hfuel
              (world_of (sync_to_all_drives env (nth 1 argv "")
                           (skipn 2 argv) w)))
    as [w' [t Hloop]].
  rewrite Hloop.
  eexists w', (startup_log _ _ ++ events _ ++ t).
  rewrite <- !app_assoc; reflexivity.
Qed.

Lemma read_failure_returns_zero_witness :
  let fd := inotify_init_result env_ssd1 in
  let wd :=
    inotify_add_watch_result env_ssd1 fd (nth 1 scenario_argv "") WATCH_MASK in
  exists w' t,
    main env_ssd1 scan_fuel scenario_argv
      [ReadData (encode_batch create_then_delete); ReadFailed] initial_world
    = Some (Exit 0, w', t ++ read_failure_log fd ++ cleanup_log fd wd).
Proof.
  apply (read_failure_returns_zero env_ssd1 scan_fuel scenario_argv
           [ReadData (encode_batch create_then_delete); ReadFailed]
           initial_world).
  - simpl; lia.
  - simpl; lia.
  - simpl; lia.
  - constructor; [| constructor; [exact I | constructor]].
    exists create_then_delete.
    split; [reflexivity | vm_compute; discriminate].
  - right; left; reflexivity.
  - apply Nat.le_refl.
Defined.

(** The exit code at the smallest such run: the very first [read]
    fails. *)
Example first_read_fails :
  option_map (fun r => fst (fst r))
    (main env_ssd1 scan_fuel scenario_argv [ReadFailed] initial_world)
  = Some (Exit 0).
Proof. reflexivity. Qed.

(** * Further properties of the code *)

(** ** Setup failures of [main] *)

(** When [inotify_init] fails, [main] writes its diagnostic on standard
    error and returns 1: no watch is added, nothing is closed, the
    mount table is not opened and no command is run. *)
Theorem inotify_init_failure (env : Env) (fuel : nat) (argv : list string)
    (reads : list read_result) (w : World) :
  3 <= Z.of_nat (List.length argv) ->
  inotify_init_result env < 0 ->
  main env fuel argv reads w
  = Some (Exit 1, w, [Call_inotify_init; Stderr "Error initializing inotify"]).
Proof.
  intros Hargc Hfd. unfold main.
  destruct (Z.ltb_spec (Z.of_nat (List.length argv)) 3) as [Hlt | _]; [lia |].
  cbv zeta. unfold bindF at 1. unfold lift at 1, inotify_init at 1.
  destruct (Z.ltb_spec (inotify_init_result env) 0) as [_ | Hge]; [| lia].
  reflexivity.
Qed.

Lemma inotify_init_failure_witness :
  main env_no_inotify scan_fuel scenario_argv [] initial_world
  = Some (Exit 1, initial_world,
          [Call_inotify_init; Stderr "Error initializing inotify"]).
Proof.
  apply (inotify_init_failure env_no_inotify scan_fuel scenario_argv []
           initial_world).
  - simpl; lia.
  - simpl; lia.
Defined.

(** When the watch cannot be added, [main] writes a diagnostic that
    names the source directory, closes the inotify descriptor and
    returns 1, without any dispatch pass. *)
Theorem inotify_add_watch_failure (env : Env) (fuel : nat)
    (argv : list string) (reads : list read_result) (w : World) :
  3 <= Z.of_nat (List.length argv) ->
  0 <= inotify_init_result env ->
  inotify_add_watch_result env (inotify_init_result env) (nth 1 argv "")
    WATCH_MASK < 0 ->
  main env fuel argv reads w
  = Some (Exit 1, w,
          [Call_inotify_init;
           Call_inotify_add_watch (inotify_init_result env) (nth 1 argv "")
             WATCH_MASK;
           Stderr ("Error adding watch to " ++ nth 1 argv "")%string;
           Call_close (inotify_init_result env)]).
Proof.
  intros Hargc Hfd Hwd. unfold main.
  destruct (Z.ltb_spec (Z.of_nat (List.length argv)) 3) as [Hlt | _]; [lia |].
  set (src_dir := nth 1 argv "") in *.
  set (dest_drives := skipn 2 argv). clearbody src_dir dest_drives.
  cbv zeta. unfold bindF at 1. unfold lift at 1, inotify_init at 1.
  destruct (Z.ltb_spec (inotify_init_result env) 0) as [Hlt | _]; [lia |].
  unfold bindF at 1. unfold lift at 1, inotify_add_watch at 1.
  destruct (Z.ltb_spec
              (inotify_add_watch_result env (inotify_init_result env)
                 src_dir WATCH_MASK) 0) as [_ | Hge]; [| lia].
  reflexivity.
Qed.

Lemma inotify_add_watch_failure_witness :
  main env_no_watch scan_fuel scenario_argv [] initial_world
  = Some (Exit 1, initial_world,
          [Call_inotify_init;
           Call_inotify_add_watch (inotify_init_result env_no_watch)
             (nth 1 scenario_argv "") WATCH_MASK;
           Stderr ("Error adding watch to " ++ nth 1 scenario_argv "")%string;
           Call_close (inotify_init_result env_no_watch)]).
Proof.
  apply (inotify_add_watch_failure env_no_watch scan_fuel scenario_argv []
           initial_world).
  - simpl; lia.
  - simpl; lia.
  - simpl; lia.
Defined.

(** ** What a pass is made of *)

Lemma count_events_app (p : event -> bool) (t1 t2 : list event) :
  count_events p (t1 ++ t2) = (count_events p t1 + count_events p t2)%nat.
Proof. unfold count_events. rewrite filter_app, length_app; reflexivity. Qed.

Lemma count_events_none (p : event -> bool) (t : list event) :
  (forall e, In e t -> p e = false) -> count_events p t = 0%nat.
Proof.
  unfold count_events. induction t as [| e t IH]; intros Hnone; [reflexivity |].
  cbn [filter]. rewrite (Hnone e (or_introl eq_refl)).
  apply IH. intros e' Hin. apply Hnone. right; exact Hin.
Qed.

Lemma mount_check_log_vocabulary (env : Env) (q : nat) (drive : string) :
  forallb pass_event (mount_check_log env q drive) = true.
Proof.
  unfold mount_check_log. destruct (mtab_at env q) as [entries |];
    [| reflexivity].
  cbn [forallb pass_event andb]. rewrite forallb_app. apply andb_true_iff.
  split; [| reflexivity].
  induction (scanned_dirs entries drive) as [| d ds IH]; [reflexivity |].
  exact IH.
Qed.

Lemma mirror_log_vocabulary (env : Env) (n : nat) (src dest : string) :
  forallb pass_event (mirror_log env n src dest) = true.
Proof.
  unfold mirror_log.
  destruct (system_at env n (rsync_command src dest) =? 0); reflexivity.
Qed.

Lemma pass_log_vocabulary (env : Env) (src : string) (drives : list string)
    (w : World) :
  forallb pass_event (events (sync_to_all_drives env src drives w)) = true.
Proof.
  revert w; induction drives as [| drive rest IH]; intros w; [reflexivity |].
  rewrite sync_to_all_drives_cons; cbn [events snd].
  unfold attempt_log. rewrite !forallb_app, mount_check_log_vocabulary, IH.
  destruct (mounted_at env (mount_queries w) drive);
    [rewrite mirror_log_vocabulary |]; reflexivity.
Qed.

(** A dispatch pass only opens and closes the mount table, writes
    lines and runs commands: it never initialises inotify, never adds
    or removes a watch, never reads notifications and never closes a
    descriptor. *)
Theorem pass_never_touches_inotify (env : Env) (src : string)
    (drives : list string) (w : World) (e : event) :
  In e (events (sync_to_all_drives env src drives w)) ->
  match e with
  | Call_inotify_init | Call_inotify_add_watch _ _ _ | Call_read _
  | Call_inotify_rm_watch _ _ | Call_close _ => False
  | _ => True
  end.
Proof.
  intros Hin.
  pose proof (pass_log_vocabulary env src drives w) as Hall.
  rewrite forallb_forall in Hall. specialize (Hall e Hin).
  destruct e; simpl in Hall; try discriminate; exact I.
Qed.

Lemma pass_never_touches_inotify_witness :
  match Stdout "Successfully synced /data to /mnt/ssd1" with
  | Call_inotify_init | Call_inotify_add_watch _ _ _ | Call_read _
  | Call_inotify_rm_watch _ _ | Call_close _ => False
  | _ => True
  end.
Proof.
  apply (pass_never_touches_inotify env_ssd1 "/data" ["/mnt/ssd1"]
           initial_world).
  vm_compute. do 6 right. left. reflexivity.
Defined.

(** ** The mount table stream *)

Lemma count_stdout (p : event -> bool) (texts : list string) :
  (forall text, p (Stdout text) = false) ->
  count_events p (map Stdout texts) = 0%nat.
Proof.
  intros Hp. apply count_events_none. intros e Hin.
  apply in_map_iff in Hin. destruct Hin as [text [<- _]]. apply Hp.
Qed.

Lemma count_mirror_log (p : event -> bool) (env : Env) (n : nat)
    (src dest : string) :
  (forall e, pass_event e = true -> is_setmntent e = false ->
             is_endmntent e = false -> p e = false) ->
  count_events p (mirror_log env n src dest) = 0%nat.
Proof.
  intros Hp. apply count_events_none. intros e Hin. unfold mirror_log in Hin.
  destruct Hin as [<- | [<- | []]]; [apply Hp; reflexivity |].
  destruct (system_at env n (rsync_command src dest) =? 0);
    apply Hp; reflexivity.
Qed.

(** Every destination of a pass has the mount table opened afresh, once,
    and each stream that was opened is closed again, once: the pass
    makes as many [setmntent] calls as it has destinations and as many
    [endmntent] calls as of those succeeded. *)
Theorem mount_table_stream_balance (env : Env) (src : string)
    (drives : list string) (w : World) :
  count_events is_setmntent (events (sync_to_all_drives env src drives w))
  = List.length drives
  /\ count_events is_endmntent (events (sync_to_all_drives env src drives w))
     = tables_opened env (mount_queries w) (List.length drives).
Proof.
  revert w; induction drives as [| drive rest IH]; intros w;
    [split; reflexivity |].
  rewrite sync_to_all_drives_cons; cbn [events snd].
  destruct (IH (after_attempt env drive w)) as [IHopen IHclose].
  rewrite mount_queries_after_attempt in IHclose.
  unfold attempt_log. rewrite !count_events_app, IHopen, IHclose.
  assert (Hmirror : forall p,
            (forall e, pass_event e = true -> is_setmntent e = false ->
                       is_endmntent e = false -> p e = false) ->
            count_events p
              (if mounted_at env (mount_queries w) drive
               then mirror_log env (system_calls w) src drive
               else []) = 0%nat).
  { intros p Hp. destruct (mounted_at env (mount_queries w) drive);
      [apply count_mirror_log; exact Hp | reflexivity]. }
  rewrite !Hmirror by (intros e; destruct e; simpl; congruence).
  unfold mount_check_log. cbn [List.length tables_opened].
  destruct (mtab_at env (mount_queries w)) as [entries |].
  - change (Call_setmntent "/etc/mtab" :: ?t)
      with ([Call_setmntent "/etc/mtab"] ++ t).
    rewrite !count_events_app, !count_stdout by reflexivity.
    split; reflexivity.
  - split; reflexivity.
Qed.

Lemma scanned_dirs_first_match (before : list mntent) (entry : mntent)
    (after : list mntent) (drive : string) :
  listed before drive = false -> mnt_dir entry = drive ->
  scanned_dirs (before ++ entry :: after) drive
  = map mnt_dir before ++ [drive]
  /\ listed (before ++ entry :: after) drive = true.
Proof.
  intros Hbefore Hentry. unfold listed in *.
  induction before as [| b before IH]; simpl in *.
  - rewrite Hentry, String.eqb_refl. split; reflexivity.
  - apply orb_false_iff in Hbefore. destruct Hbefore as [Hb Hbefore].
    rewrite Hb. destruct (IH Hbefore) as [IHdirs IHlisted].
    rewrite IHdirs, IHlisted. split; reflexivity.
Qed.

(** The mount check stops at the first entry whose mount directory is
    the queried path: it echoes the directories up to that entry, then
    the flag 1, and what the table holds after that entry is neither
    read nor echoed. *)
Theorem mount_check_stops_at_first_match (env : Env) (drive : string)
    (before : list mntent) (entry : mntent) (after : list mntent)
    (w : World) :
  mtab_at env (mount_queries w) = Some (before ++ entry :: after) ->
  listed before drive = false ->
  mnt_dir entry = drive ->
  is_drive_mounted env drive w
  = (true, count_mount_query w,
     Call_setmntent "/etc/mtab"
     :: map Stdout (map mnt_dir before ++ [drive])
     ++ [Stdout "1"; Call_endmntent]).
Proof.
  intros Hmtab Hbefore Hentry.
  destruct (scanned_dirs_first_match before entry after drive Hbefore Hentry)
    as [Hdirs Hlisted].
  rewrite is_drive_mounted_run. unfold mounted_at, mount_check_log.
  rewrite Hmtab, Hdirs, Hlisted. reflexivity.
Qed.

Lemma mount_check_stops_at_first_match_witness :
  is_drive_mounted env_ssd2_plugged_later "/mnt/ssd1"
    (count_mount_query (count_mount_query initial_world))
  = (true,
     count_mount_query (count_mount_query (count_mount_query initial_world)),
     Call_setmntent "/etc/mtab"
     :: map Stdout (map mnt_dir [mount_entry "/dev/sda1" "/"] ++ ["/mnt/ssd1"])
     ++ [Stdout "1"; Call_endmntent]).
Proof.
  apply (mount_check_stops_at_first_match env_ssd2_plugged_later "/mnt/ssd1"
           [mount_entry "/dev/sda1" "/"] (mount_entry "/dev/sdb1" "/mnt/ssd1")
           [mount_entry "/dev/sdc1" "/mnt/ssd2"]).
  - reflexivity.
  - reflexivity.
  - reflexivity.
Defined.

(** ** Passes, one after the other *)

Lemma pass_summary (env : Env) (src : string) (drives : list string) :
  forall w : World,
  mirror_calls (events (sync_to_all_drives env src drives w))
  = map (rsync_command src) (mounted_drives env (mount_queries w) drives)
  /\ mount_queries (world_of (sync_to_all_drives env src drives w))
     = (mount_queries w + List.length drives)%nat
  /\ system_calls (world_of (sync_to_all_drives env src drives w))
     = (system_calls w
        + List.length (mounted_drives env (mount_queries w) drives))%nat
  /\ buffer (world_of (sync_to_all_drives env src drives w)) = buffer w.
Proof.
  induction drives as [| drive rest IH]; intros w.
  - simpl. repeat split; lia.
  - rewrite sync_to_all_drives_cons; cbn [events world_of fst snd].
    destruct (IH (after_attempt env drive w)) as [IHc [IHq [IHs IHb]]].
    rewrite mount_queries_after_attempt in IHc, IHq, IHs.
    rewrite IHq, IHs, IHb. unfold attempt_log.
    rewrite !mirror_calls_app, mirror_calls_mount_check, IHc.
    cbn [mounted_drives]. unfold after_attempt.
    destruct (mounted_at env (mount_queries w) drive).
    + rewrite mirror_calls_mirror_log. cbn [app map List.length].
      repeat split; simpl; lia.
    + cbn [app List.length]. repeat split; simpl; lia.
Qed.

(** A pass over a list of destinations is the pass over its first part
    followed by the pass over the rest, in state and in log: nothing is
    carried from one destination to the next but the counted calls. *)
Theorem pass_over_appended_lists (env : Env) (src : string)
    (before after : list string) (w : World) :
  sync_to_all_drives env src (before ++ after) w
  = bind (sync_to_all_drives env src before)
         (fun _ => sync_to_all_drives env src after) w.
Proof.
  rewrite bind_run, sync_to_all_drives_app.
  destruct (sync_to_all_drives env src after _) as [[[] w2] t2]; reflexivity.
Qed.

(** No mount state is kept from one pass to the next: of two passes in
    a row over the same destinations, the second mirrors the
    destinations that the mount table lists at the time of its own
    queries, whatever the first pass saw. *)
Theorem second_pass_reads_the_table_anew (env : Env) (src : string)
    (drives : list string) (w : World) :
  let first := sync_to_all_drives env src drives w in
  let second := sync_to_all_drives env src drives (world_of first) in
  mirror_calls (events second)
  = map (rsync_command src)
      (mounted_drives env (mount_queries w + List.length drives) drives)
  /\ mirror_calls
       (events (bind (sync_to_all_drives env src drives)
                  (fun _ => sync_to_all_drives env src drives) w))
     = mirror_calls (events first) ++ mirror_calls (events second).
Proof.
  cbv zeta.
  destruct (pass_summary env src drives w) as [_ [Hq _]].
  destruct (pass_summary env src drives
              (world_of (sync_to_all_drives env src drives w)))
    as [Hc _].
  rewrite Hq in Hc. split; [exact Hc |].
  rewrite bind_run; cbn [events snd]. apply mirror_calls_app.
Qed.

(** A drive plugged in between two passes is mirrored by the second. *)
Example drive_plugged_in_between_passes :
  let first :=
    sync_to_all_drives env_ssd2_plugged_later "/data"
      ["/mnt/ssd1"; "/mnt/ssd2"] initial_world in
  let second :=
    sync_to_all_drives env_ssd2_plugged_later "/data"
      ["/mnt/ssd1"; "/mnt/ssd2"] (world_of first) in
  mirror_calls (events first) = ["rsync -avz --delete /data /mnt/ssd1"]
  /\ mirror_calls (events second)
     = ["rsync -avz --delete /data /mnt/ssd1";
        "rsync -avz --delete /data /mnt/ssd2"].
Proof. split; reflexivity. Qed.

(** ** The command line of [sync_directory] *)

Lemma append_cancel_l (prefix a b : string) :
  (prefix ++ a)%string = (prefix ++ b)%string -> a = b.
Proof.
  induction prefix as [| c prefix IH]; simpl; intros Heq; [exact Heq |].
  injection Heq as Heq. exact (IH Heq).
Qed.

Lemma split_at_first_space (a a' b b' : string) :
  has_space a = false -> has_space a' = false ->
  (a ++ String " " b)%string = (a' ++ String " " b')%string ->
  a = a' /\ b = b'.
Proof.
  revert a'; induction a as [| c a IH]; intros a' Ha Ha' Heq.
  - destruct a' as [| c' a']; simpl in *.
    + injection Heq as Heq. split; [reflexivity | exact Heq].
    + injection Heq as Hc _. subst c'. simpl in Ha'. discriminate.
  - destruct a' as [| c' a']; simpl in *.
    + injection Heq as Hc _. subst c. simpl in Ha. discriminate.
    + injection Heq as Hc Heq. subst c'.
      apply orb_false_iff in Ha. apply orb_false_iff in Ha'.
      destruct (IH a' (proj2 Ha) (proj2 Ha') Heq) as [-> ->].
      split; reflexivity.
Qed.

(** For source paths without a space, the command line tells the two
    paths apart: two calls of [sync_directory] that hand the same
    command line to [system] were given the same source and the same
    destination.  (With a space in the source this fails, as the
    command line has no quoting.) *)
Theorem rsync_command_tells_paths_apart (src dest src' dest' : string) :
  has_space src = false ->
  has_space src' = false ->
  rsync_command src dest = rsync_command src' dest' ->
  src = src' /\ dest = dest'.
Proof.
  intros Hsrc Hsrc' Heq. unfold rsync_command in Heq.
  apply append_cancel_l in Heq.
  exact (split_at_first_space src src' dest dest' Hsrc Hsrc' Heq).
Qed.

Lemma rsync_command_tells_paths_apart_witness :
  "/data" = "/data" /\ "/mnt/ssd1" = "/mnt/ssd1".
Proof.
  apply (rsync_command_tells_paths_apart "/data" "/mnt/ssd1" "/data"
           "/mnt/ssd1").
  - reflexivity.
  - reflexivity.
  - reflexivity.
Defined.

(** ** What the inner loop looks at *)

Lemma scan_events_until_qualifying (env : Env) (src : string)
    (drives : list string) (e : inotify_event) (rest : list byte)
    (length : Z) (skipped : list inotify_event) :
  forall (fuel : nat) (before : list byte) (w : World),
  buffer w = before ++ encode_batch skipped ++ encode_event e ++ rest ->
  existsb qualifying skipped = false ->
  qualifying e = true ->
  Z.of_nat (List.length before) + batch_size skipped + EVENT_SIZE + ev_len e
  <= length ->
  length <= INT_MAX ->
  (List.length skipped < fuel)%nat ->
  scan_events env fuel src drives length (Z.of_nat (List.length before)) w
  = Some (change_dispatch env src drives w).
Proof.
  induction skipped as [| s skipped IH];
    intros fuel before w Hbuf Hskip He Hfit Hmax Hfuel;
    (destruct fuel as [| fuel]; [simpl in Hfuel; lia |]).
  - rewrite batch_size_nil in Hfit. cbn [encode_batch flat_map app] in Hbuf.
    rewrite (scan_events_record env src drives fuel before rest e)
      by (trivial; lia).
    rewrite He. reflexivity.
  - cbn [existsb] in Hskip. apply orb_false_iff in Hskip.
    destruct Hskip as [Hs Hskip].
    pose proof (batch_size_nonneg skipped) as Hnn.
    pose proof (ev_len_nonneg e) as Hen.
    assert (Hev : EVENT_SIZE = 16) by reflexivity.
    rewrite batch_size_cons in Hfit.
    unfold encode_batch in Hbuf.
    change (flat_map encode_event (s :: skipped))
      with (encode_event s ++ encode_batch skipped) in Hbuf.
    rewrite <- app_assoc in Hbuf.
    rewrite (scan_events_record env src drives fuel before
               (encode_batch skipped ++ encode_event e ++ rest) s)
      by (trivial; lia).
    rewrite Hs.
    specialize (IH fuel (before ++ encode_event s) w).
    rewrite length_app, Nat2Z.inj_add, length_encode_event in IH.
    rewrite <- app_assoc in IH.
    replace (Z.of_nat (List.length before) + EVENT_SIZE + ev_len s)
      with (Z.of_nat (List.length before) + (EVENT_SIZE + ev_len s)) by lia.
    apply IH; trivial; [lia | simpl in Hfuel; lia].
Qed.

(** The inner loop leaves at the first record that has a name and a
    watched bit: whatever the buffer holds after that record, further
    records or any bytes at all, is not looked at, and the loop needs
    no more iterations than the records it skipped plus one. *)
Theorem scan_stops_at_first_qualifying (env : Env) (fuel : nat)
    (src : string) (drives : list string) (skipped : list inotify_event)
    (e : inotify_event) (rest : list byte) (length : Z) (w : World) :
  buffer w = encode_batch skipped ++ encode_event e ++ rest ->
  existsb qualifying skipped = false ->
  qualifying e = true ->
  batch_size skipped + EVENT_SIZE + ev_len e <= length ->
  length <= INT_MAX ->
  (List.length skipped < fuel)%nat ->
  scan_events env fuel src drives length 0 w
  = Some (tt, world_of (sync_to_all_drives env src drives w),
          Stdout ("Change detected in " ++ src)%string
          :: events (sync_to_all_drives env src drives w)).
Proof.
  intros Hbuf Hskip He Hfit Hmax Hfuel.
  pose proof (scan_events_until_qualifying env src drives e rest length
                skipped fuel [] w) as Hscan.
  cbn [List.length Z.of_nat app Z.add] in Hscan.
  rewrite Hscan by trivial.
  unfold change_dispatch. rewrite bind_run; simpl.
  destruct (sync_to_all_drives env src drives w) as [[[] w2] t2]; reflexivity.
Qed.

Lemma scan_stops_at_first_qualifying_witness :
  scan_events env_ssd1 2 "/data" ["/mnt/ssd1"] 51 0 world_with_stray_bytes
  = Some (tt,
          world_of (sync_to_all_drives env_ssd1 "/data" ["/mnt/ssd1"]
                      world_with_stray_bytes),
          Stdout ("Change detected in " ++ "/data")%string
          :: events (sync_to_all_drives env_ssd1 "/data" ["/mnt/ssd1"]
                       world_with_stray_bytes)).
Proof.
  apply (scan_stops_at_first_qualifying env_ssd1 2 "/data" ["/mnt/ssd1"]
           [nameless_event] (event_for IN_CREATE "a.txt" 11) stray_bytes 51
           world_with_stray_bytes).
  - reflexivity.
  - reflexivity.
  - reflexivity.
  - vm_compute; discriminate.
  - vm_compute; discriminate.
  - simpl; lia.
Defined.

Lemma pass_log_depends_on_counters (env : Env) (src : string)
    (drives : list string) :
  forall w w' : World,
  mount_queries w' = mount_queries w ->
  system_calls w' = system_calls w ->
  events (sync_to_all_drives env src drives w')
  = events (sync_to_all_drives env src drives w).
Proof.
  induction drives as [| drive rest IH]; intros w w' Hq Hs; [reflexivity |].
  rewrite !sync_to_all_drives_cons; cbn [events snd].
  unfold attempt_log. rewrite Hq, Hs. f_equal.
  apply IH; unfold after_attempt; rewrite Hq;
    destruct (mounted_at env (mount_queries w) drive); simpl; congruence.
Qed.

(** The buffer is reused from one [read] to the next without being
    cleared.  What an earlier, longer batch left behind the bytes of
    the current one has no effect: the inner loop ends, and logs the
    same, whatever follows the current batch in the buffer. *)
Theorem scan_ignores_stale_bytes (env : Env) (fuel : nat) (src : string)
    (drives : list string) (evs : list inotify_event)
    (stale stale' : list byte) (w w' : World) :
  buffer w = encode_batch evs ++ stale ->
  buffer w' = encode_batch evs ++ stale' ->
  mount_queries w' = mount_queries w ->
  system_calls w' = system_calls w ->
  batch_size evs <= INT_MAX ->
  (List.length evs < fuel)%nat ->
  exists r r',
    scan_events env fuel src drives (batch_size evs) 0 w = Some r
    /\ scan_events env fuel src drives (batch_size evs) 0 w' = Some r'
    /\ events r' = events r.
Proof.
  intros Hbuf Hbuf' Hq Hs Hmax Hfuel.
  pose proof (scan_events_batch env src drives evs fuel [] stale w) as Hscan.
  pose proof (scan_events_batch env src drives evs fuel [] stale' w')
    as Hscan'.
  cbn [List.length Z.of_nat app Z.add] in Hscan, Hscan'.
  rewrite Hscan, Hscan' by trivial.
  eexists _, _. split; [reflexivity |]. split; [reflexivity |].
  destruct (existsb qualifying evs); [| reflexivity].
  unfold change_dispatch. rewrite !bind_run; cbn [events snd cout emit].
  f_equal. apply pass_log_depends_on_counters; assumption.
Qed.

Lemma scan_ignores_stale_bytes_witness :
  exists r r',
    scan_events env_ssd1 3 "/data" ["/mnt/ssd1"]
      (batch_size create_then_delete) 0 world_after_read = Some r
    /\ scan_events env_ssd1 3 "/data" ["/mnt/ssd1"]
         (batch_size create_then_delete) 0 world_with_stale_tail = Some r'
    /\ events r' = events r.
Proof.
  apply (scan_ignores_stale_bytes env_ssd1 3 "/data" ["/mnt/ssd1"]
           create_then_delete []
           (encode_event (event_for IN_MODIFY "old.txt" 9))
           world_after_read world_with_stale_tail).
  - reflexivity.
  - reflexivity.
  - reflexivity.
  - reflexivity.
  - vm_compute; discriminate.
  - simpl; lia.
Defined.

(** ** The watch loop as a whole *)

Lemma count_events_vocabulary (p : event -> bool) (t : list event) :
  forallb pass_event t = true ->
  (forall e, pass_event e = true -> p e = false) ->
  count_events p t = 0%nat.
Proof.
  intros Hall Hp. apply count_events_none. intros e Hin.
  rewrite forallb_forall in Hall. apply Hp, Hall, Hin.
Qed.

Lemma watch_loop_summary (env : Env) (src : string) (drives : list string)
    (fd : Z) (fuel : nat) (reads : list read_result) :
  Forall delivered reads -> (scan_fuel <= fuel)%nat ->
  forall w : World,
  exists w' t,
    watch_loop env fuel src drives fd reads w
    = Some (if existsb is_failed_read reads then Broke else Blocked_in_read,
            w', t)
    /\ count_events is_read t = read_calls reads
    /\ count_events is_close t = 0%nat.
Proof.
  intros Hreads Hfuel.
  induction Hreads as [| r later Hr _ IH]; intros w.
  - rewrite watch_loop_blocked. eexists _, _. repeat split.
  - destruct r as [| data].
    + rewrite watch_loop_read_failed. eexists _, _. repeat split.
    + destruct Hr as [evs [-> Hcap]].
      rewrite watch_loop_batch by assumption. cbv zeta.
      set (w1 := store_in_buffer (encode_batch evs) w).
      set (turn := if existsb qualifying evs
                   then change_dispatch env src drives w1
                   else (tt, w1, [])).
      destruct (IH (world_of turn)) as [w2 [t2 [Hloop [Hreadn Hclose]]]].
      rewrite Hloop. cbn [existsb is_failed_read orb read_calls].
      eexists _, _. split; [reflexivity |].
      assert (Hturn : forall p,
                (forall e, pass_event e = true -> p e = false) ->
                count_events p (events turn) = 0%nat).
      { intros p Hp. subst turn.
        destruct (existsb qualifying evs); [| reflexivity].
        unfold change_dispatch. rewrite bind_run; cbn [events snd cout emit].
        apply count_events_vocabulary; [| exact Hp].
        cbn [app forallb pass_event andb]. apply pass_log_vocabulary. }
      change (Call_read fd :: events turn ++ t2)
        with ([Call_read fd] ++ events turn ++ t2).
      rewrite !count_events_app, Hreadn, Hclose.
      rewrite !Hturn by (intros e; destruct e; simpl; congruence).
      split; reflexivity.
Qed.

(** After a failed [read] the loop is over: the answers that would
    have come after it are never asked for, so the run is the same as
    if the failure were the last answer.  This needs no assumption on
    the batches read before. *)
Theorem nothing_read_after_failure (env : Env) (fuel : nat) (src : string)
    (drives : list string) (fd : Z) (before later : list read_result)
    (w : World) :
  watch_loop env fuel src drives fd (before ++ ReadFailed :: later) w
  = watch_loop env fuel src drives fd (before ++ [ReadFailed]) w.
Proof.
  revert w; induction before as [| r before IH]; intros w; [reflexivity |].
  cbn [app watch_loop]. unfold bindF at 1 3. unfold lift at 1 3.
  destruct (read fd r w) as [[length w1] t1].
  destruct (length <? 0); [reflexivity |].
  unfold bindF.
  destruct (scan_events env fuel src drives length 0 w1) as [[[u w2] t2] |];
    [| reflexivity].
  rewrite IH. reflexivity.
Qed.

(** In a run that passes setup, every answer of [read] up to the first
    failure is asked for exactly once, in order, and when no answer
    fails one more [read] is issued, the one the process stays in: for
    [n] delivered batches the log holds [n + 1] reads. *)
Theorem reads_of_a_run (env : Env) (fuel : nat) (argv : list string)
    (reads : list read_result) (w : World) :
  setup_ok env argv = true ->
  Forall delivered reads ->
  (scan_fuel <= fuel)%nat ->
  exists out w' t,
    main env fuel argv reads w = Some (out, w', t)
    /\ count_events is_read t = read_calls reads.
Proof.
  intros Hsetup Hreads Hfuel. unfold setup_ok in Hsetup.
  apply andb_true_iff in Hsetup. destruct Hsetup as [Hsetup Hwd].
  apply andb_true_iff in Hsetup. destruct Hsetup as [Hargc Hfd].
  apply Z.leb_le in Hargc, Hfd, Hwd.
  rewrite main_watching by assumption. cbv zeta.
  destruct (watch_loop_summary env (nth 1 argv "") (skipn 2 argv)
              (inotify_init_result env) fuel reads Hreads Hfuel
              (world_of (sync_to_all_drives env (nth 1 argv "")
                           (skipn 2 argv) w)))
    as [w' [t [Hloop [Hreadn _]]]].
  rewrite Hloop.
  assert (Hpass : count_events is_read
                    (events (sync_to_all_drives env (nth 1 argv "")
                               (skipn 2 argv) w)) = 0%nat).
  { apply count_events_vocabulary; [apply pass_log_vocabulary |].
    intros e; destruct e; simpl; congruence. }
  destruct (existsb is_failed_read reads); eexists _, _, _;
    (split; [reflexivity |]);
    rewrite !count_events_app, Hpass, Hreadn; unfold cleanup_log;
    cbn; lia.
Qed.

Lemma reads_of_a_run_witness :
  exists out w' t,
    main env_ssd1 scan_fuel scenario_argv
      [ReadData (encode_batch create_then_delete);
       ReadData (encode_batch [nameless_event])] initial_world
    = Some (out, w', t)
    /\ count_events is_read t
       = read_calls [ReadData (encode_batch create_then_delete);
                     ReadData (encode_batch [nameless_event])].
Proof.
  apply (reads_of_a_run env_ssd1 scan_fuel scenario_argv
           [ReadData (encode_batch create_then_delete);
            ReadData (encode_batch [nameless_event])] initial_world).
  - reflexivity.
  - constructor; [| constructor; [| constructor]].
    + exists create_then_delete.
      split; [reflexivity | vm_compute; discriminate].
    + exists [nameless_event].
      split; [reflexivity | vm_compute; discriminate].
  - apply Nat.le_refl.
Defined.

(** ** The exit status *)

Lemma main_without_setup (env : Env) (fuel : nat) (argv : list string)
    (reads : list read_result) (w : World) :
  setup_ok env argv = false ->
  exists t,
    main env fuel argv reads w = Some (Exit 1, w, t)
    /\ mirror_calls t = []
    /\ count_events is_setmntent t = 0%nat
    /\ count_events is_close t
       = if (3 <=? Z.of_nat (List.length argv))
            && (0 <=? inotify_init_result env)
         then 1%nat else 0%nat.
Proof.
  intros Hsetup. unfold setup_ok in Hsetup. unfold main.
  destruct (Z.ltb_spec (Z.of_nat (List.length argv)) 3) as [Hlt | Hargc].
  - eexists. split; [reflexivity |].
    destruct (Z.leb_spec 3 (Z.of_nat (List.length argv))); [lia |].
    repeat split.
  - set (src_dir := nth 1 argv "") in *.
    set (dest_drives := skipn 2 argv). clearbody src_dir dest_drives.
    destruct (Z.leb_spec 3 (Z.of_nat (List.length argv))) as [_ |]; [| lia].
    cbn [andb] in Hsetup |- *.
    cbv zeta. unfold bindF at 1. unfold lift at 1, inotify_init at 1.
    destruct (Z.ltb_spec (inotify_init_result env) 0) as [Hlt | Hfd].
    + destruct (Z.leb_spec 0 (inotify_init_result env)); [lia |].
      eexists. repeat split.
    + destruct (Z.leb_spec 0 (inotify_init_result env)) as [_ |]; [| lia].
      cbn [andb] in Hsetup. apply Z.leb_gt in Hsetup.
      unfold bindF at 1. unfold lift at 1, inotify_add_watch at 1.
      destruct (Z.ltb_spec
                  (inotify_add_watch_result env (inotify_init_result env)
                     src_dir WATCH_MASK) 0) as [_ | Hge]; [| lia].
      eexists. repeat split.
Qed.

(** The exit status of [main], on answers the kernel can give.  It is
    1 exactly when argument validation or watch setup fails, and then
    nothing was synced: the mount table was not opened, no command was
    run and the state is untouched.  Once setup has passed the only
    exit is the one after a failed [read], with status 0; as long as no
    [read] fails the process keeps running. *)
Theorem exit_status_of_main (env : Env) (fuel : nat) (argv : list string)
    (reads : list read_result) (w : World) :
  Forall delivered reads ->
  (scan_fuel <= fuel)%nat ->
  exists w' t,
    main env fuel argv reads w
    = Some (if setup_ok env argv
            then if existsb is_failed_read reads then Exit 0 else Running
            else Exit 1,
            w', t)
    /\ (setup_ok env argv = false ->
        w' = w /\ mirror_calls t = []
        /\ count_events is_setmntent t = 0%nat).
Proof.
  intros Hreads Hfuel.
  destruct (setup_ok env argv) eqn:Hsetup.
  - unfold setup_ok in Hsetup.
    apply andb_true_iff in Hsetup. destruct Hsetup as [Hsetup Hwd].
    apply andb_true_iff in Hsetup. destruct Hsetup as [Hargc Hfd].
    apply Z.leb_le in Hargc, Hfd, Hwd.
    rewrite main_watching by assumption. cbv zeta.
    destruct (watch_loop_summary env (nth 1 argv "") (skipn 2 argv)
                (inotify_init_result env) fuel reads Hreads Hfuel
                (world_of (sync_to_all_drives env (nth 1 argv "")
                             (skipn 2 argv) w)))
      as [w' [t [Hloop _]]].
    rewrite Hloop.
    destruct (existsb is_failed_read reads); eexists _, _;
      (split; [reflexivity | discriminate]).
  - destruct (main_without_setup env fuel argv reads w Hsetup)
      as [t [Hmain [Hcalls [Hopen _]]]].
    exists w, t. split; [exact Hmain |]. intros _. repeat split; assumption.
Qed.

Lemma exit_status_of_main_witness :
  exists w' t,
    main env_no_watch scan_fuel scenario_argv
      [ReadData (encode_batch create_then_delete)] initial_world
    = Some (if setup_ok env_no_watch scenario_argv
            then if existsb is_failed_read
                      [ReadData (encode_batch create_then_delete)]
                 then Exit 0 else Running
            else Exit 1,
            w', t)
    /\ (setup_ok env_no_watch scenario_argv = false ->
        w' = initial_world /\ mirror_calls t = []
        /\ count_events is_setmntent t = 0%nat).
Proof.
  apply (exit_status_of_main env_no_watch scan_fuel scenario_argv
           [ReadData (encode_batch create_then_delete)] initial_world).
  - constructor; [| constructor].
    exists create_then_delete.
    split; [reflexivity | vm_compute; discriminate].
  - apply Nat.le_refl.
Defined.

(** The inotify descriptor is closed exactly once on every exit of
    [main] that comes after a successful [inotify_init], and never
    otherwise: not when the arguments are rejected or [inotify_init]
    itself fails, and not while the process is still running. *)
Theorem descriptor_closed_once (env : Env) (fuel : nat) (argv : list string)
    (reads : list read_result) (w : World) :
  Forall delivered reads ->
  (scan_fuel <= fuel)%nat ->
  exists out w' t,
    main env fuel argv reads w = Some (out, w', t)
    /\ count_events is_close t
       = match out with
         | Exit _ =>
             if (3 <=? Z.of_nat (List.length argv))
                && (0 <=? inotify_init_result env)
             then 1%nat else 0%nat
         | Running => 0%nat
         end.
Proof.
  intros Hreads Hfuel.
  destruct (setup_ok env argv) eqn:Hsetup.
  - unfold setup_ok in Hsetup.
    apply andb_true_iff in Hsetup. destruct Hsetup as [Hsetup Hwd].
    apply andb_true_iff in Hsetup. destruct Hsetup as [Hargc Hfd].
    rewrite Hargc, Hfd. cbn [andb].
    apply Z.leb_le in Hargc, Hfd, Hwd.
    rewrite main_watching by assumption. cbv zeta.
    destruct (watch_loop_summary env (nth 1 argv "") (skipn 2 argv)
                (inotify_init_result env) fuel reads Hreads Hfuel
                (world_of (sync_to_all_drives env (nth 1 argv "")
                             (skipn 2 argv) w)))
      as [w' [t [Hloop [_ Hclose]]]].
    rewrite Hloop.
    assert (Hpass : count_events is_close
                      (events (sync_to_all_drives env (nth 1 argv "")
                                 (skipn 2 argv) w)) = 0%nat).
    { apply count_events_vocabulary; [apply pass_log_vocabulary |].
      intros e; destruct e; simpl; congruence. }
    destruct (existsb is_failed_read reads); eexists _, _, _;
      (split; [reflexivity |]);
      rewrite !count_events_app, Hpass, Hclose; reflexivity.
  - destruct (main_without_setup env fuel argv reads w Hsetup)
      as [t [Hmain [_ [_ Hclose]]]].
    exists (Exit 1), w, t. split; assumption.
Qed.

Lemma descriptor_closed_once_witness :
  exists out w' t,
    main env_ssd1 scan_fuel scenario_argv
      [ReadData (encode_batch create_then_delete); ReadFailed] initial_world
    = Some (out, w', t)
    /\ count_events is_close t
       = match out with
         | Exit _ =>
             if (3 <=? Z.of_nat (List.length scenario_argv))
                && (0 <=? inotify_init_result env_ssd1)
             then 1%nat else 0%nat
         | Running => 0%nat
         end.
Proof.
  apply (descriptor_closed_once env_ssd1 scan_fuel scenario_argv
           [ReadData (encode_batch create_then_delete); ReadFailed]
           initial_world).
  - constructor; [| constructor; [exact I | constructor]].
    exists create_then_delete.
    split; [reflexivity | vm_compute; discriminate].
  - apply Nat.le_refl.
Defined.

(** ** Records in the buffer *)

(** The fields [main] reads through its cast of [&buffer[i]] are the
    fields of the record stored at [i]: for a record that starts at the
    end of any prefix of the buffer, with a 32-bit mask, [event_mask]
    and [event_len] give back its mask and the length of its name,
    whatever precedes and follows it. *)
Theorem record_fields_round_trip (before rest : list byte)
    (e : inotify_event) :
  0 <= ev_mask e < 2 ^ 32 ->
  ev_len e < 2 ^ 32 ->
  event_mask (before ++ encode_event e ++ rest) (Z.of_nat (List.length before))
  = ev_mask e
  /\ event_len (before ++ encode_event e ++ rest)
       (Z.of_nat (List.length before))
     = ev_len e.
Proof.
  intros Hmask Hlen. pose proof (ev_len_nonneg e) as Hnn.
  rewrite event_mask_at, event_len_at.
  rewrite !Z.mod_small by lia. split; reflexivity.
Qed.

Lemma record_fields_round_trip_witness :
  event_mask (encode_event nameless_event
              ++ encode_event (event_for IN_DELETE "a.txt" 11) ++ stray_bytes)
    (Z.of_nat (List.length (encode_event nameless_event)))
  = ev_mask (event_for IN_DELETE "a.txt" 11)
  /\ event_len (encode_event nameless_event
                ++ encode_event (event_for IN_DELETE "a.txt" 11)
                ++ stray_bytes)
       (Z.of_nat (List.length (encode_event nameless_event)))
     = ev_len (event_for IN_DELETE "a.txt" 11).
Proof.
  apply (record_fields_round_trip (encode_event nameless_event) stray_bytes
           (event_for IN_DELETE "a.txt" 11)).
  - vm_compute. split; [discriminate | reflexivity].
  - vm_compute. reflexivity.
Defined.

(** [BUF_LEN] is room for 1024 events whose names take up to 16 bytes:
    such a batch always fits the buffer [main] reads into. *)
Theorem buffer_holds_1024_events (evs : list inotify_event) :
  (List.length evs <= 1024)%nat ->
  Forall (fun e => ev_len e <= 16) evs ->
  batch_size evs <= BUF_LEN.
Proof.
  intros Hcount Hnames.
  assert (Hsize : batch_size evs
                  <= (EVENT_SIZE + 16) * Z.of_nat (List.length evs)).
  { clear Hcount. induction Hnames as [| e evs He _ IH].
    - rewrite batch_size_nil. simpl. lia.
    - rewrite batch_size_cons. cbn [List.length].
      unfold EVENT_SIZE in *. lia. }
  unfold BUF_LEN. unfold EVENT_SIZE in *. lia.
Qed.

Lemma buffer_holds_1024_events_witness :
  batch_size create_then_delete <= BUF_LEN.
Proof.
  apply (buffer_holds_1024_events create_then_delete).
  - simpl; lia.
  - repeat constructor; vm_compute; discriminate.
Defined.

(** ** How many passes a run makes *)

Lemma pass_opens_per_destination (env : Env) (src : string)
    (drives : list string) :
  forall w : World,
  count_events is_setmntent (events (sync_to_all_drives env src drives w))
  = List.length drives.
Proof.
  induction drives as [| drive rest IH]; intros w; [reflexivity |].
  rewrite sync_to_all_drives_cons; cbn [events snd].
  unfold attempt_log. rewrite !count_events_app, IH.
  replace (count_events is_setmntent
             (if mounted_at env (mount_queries w) drive
              then mirror_log env (system_calls w) src drive
              else [])) with 0%nat.
  - unfold mount_check_log. cbn [List.length].
    destruct (mtab_at env (mount_queries w)) as [entries |];
      [| reflexivity].
    change (Call_setmntent "/etc/mtab" :: ?t)
      with ([Call_setmntent "/etc/mtab"] ++ t).
    rewrite !count_events_app, count_stdout by reflexivity.
    reflexivity.
  - destruct (mounted_at env (mount_queries w) drive); [| reflexivity].
    symmetry. apply count_mirror_log.
    intros e; destruct e; simpl; congruence.
Qed.

Lemma watch_loop_passes (env : Env) (src : string) (drives : list string)
    (fd : Z) (fuel : nat) (batches : list (list inotify_event)) :
  Forall (fun evs => batch_size evs <= BUF_LEN) batches ->
  (scan_fuel <= fuel)%nat ->
  forall w : World,
  exists w' t,
    watch_loop env fuel src drives fd (deliver batches) w
    = Some (Blocked_in_read, w', t)
    /\ count_events is_setmntent t
       = (List.length drives * dispatching batches)%nat
    /\ mount_queries w'
       = (mount_queries w + List.length drives * dispatching batches)%nat.
Proof.
  intros Hbatches Hfuel.
  induction Hbatches as [| evs batches Hcap _ IH]; intros w.
  - cbn [deliver map]. rewrite watch_loop_blocked.
    eexists _, _. split; [reflexivity |].
    unfold dispatching; cbn. split; lia.
  - unfold deliver in *. cbn [map].
    rewrite watch_loop_batch by assumption. cbv zeta.
    set (w1 := store_in_buffer (encode_batch evs) w).
    unfold dispatching in *. cbn [filter].
    destruct (existsb qualifying evs).
    + unfold change_dispatch. rewrite bind_run; cbn [events world_of fst snd cout emit].
      destruct (IH (world_of (sync_to_all_drives env src drives w1)))
        as [w2 [t2 [Hloop [Hcount Hq]]]].
      rewrite Hloop. eexists _, _. split; [reflexivity |].
      destruct (pass_summary env src drives w1) as [_ [Hq1 _]].
      pose proof (pass_opens_per_destination env src drives w1) as Hopen.
      change (Call_read fd
              :: ([Stdout ("Change detected in " ++ src)%string]
                  ++ events (sync_to_all_drives env src drives w1)) ++ t2)
        with ([Call_read fd;
               Stdout ("Change detected in " ++ src)%string]
              ++ events (sync_to_all_drives env src drives w1) ++ t2).
      rewrite !count_events_app, Hopen, Hcount, Hq, Hq1.
      cbn [List.length]. subst w1. cbn [mount_queries store_in_buffer].
      change (count_events is_setmntent
                [Call_read fd; Stdout ("Change detected in " ++ src)%string])
        with 0%nat.
      split; lia.
    + cbn [world_of events fst snd].
      destruct (IH w1) as [w2 [t2 [Hloop [Hcount Hq]]]].
      rewrite Hloop. eexists _, _. split; [reflexivity |].
      change (Call_read fd :: [] ++ t2) with ([Call_read fd] ++ t2).
      rewrite count_events_app, Hcount, Hq. subst w1. split; reflexivity.
Qed.

(** A run that passes setup and is delivered batches makes the startup
    pass and then one pass for each batch that holds an event with a
    name and a watched bit, no more and no fewer: every destination has
    its mount status queried once by each of these passes. *)
Theorem passes_of_a_run (env : Env) (fuel : nat) (argv : list string)
    (batches : list (list inotify_event)) (w : World) :
  setup_ok env argv = true ->
  Forall (fun evs => batch_size evs <= BUF_LEN) batches ->
  (scan_fuel <= fuel)%nat ->
  exists w' t,
    main env fuel argv (deliver batches) w = Some (Running, w', t)
    /\ count_events is_setmntent t
       = (List.length (skipn 2 argv) * S (dispatching batches))%nat
    /\ mount_queries w'
       = (mount_queries w
          + List.length (skipn 2 argv) * S (dispatching batches))%nat.
Proof.
  intros Hsetup Hbatches Hfuel. unfold setup_ok in Hsetup.
  apply andb_true_iff in Hsetup. destruct Hsetup as [Hsetup Hwd].
  apply andb_true_iff in Hsetup. destruct Hsetup as [Hargc Hfd].
  apply Z.leb_le in Hargc, Hfd, Hwd.
  rewrite main_watching by assumption. cbv zeta.
  set (src := nth 1 argv "") in *. set (drives := skipn 2 argv).
  destruct (watch_loop_passes env src drives (inotify_init_result env) fuel
              batches Hbatches Hfuel
              (world_of (sync_to_all_drives env src drives w)))
    as [w' [t [Hloop [Hcount Hq]]]].
  rewrite Hloop. eexists _, _. split; [reflexivity |].
  destruct (pass_summary env src drives w) as [_ [Hq0 _]].
  pose proof (pass_opens_per_destination env src drives w) as Hopen.
  rewrite !count_events_app, Hopen, Hcount, Hq, Hq0.
  change (count_events is_setmntent (startup_log env src)) with 0%nat.
  split; lia.
Qed.

Lemma passes_of_a_run_witness :
  exists w' t,
    main env_ssd1 scan_fuel scenario_argv
      (deliver [create_then_delete; [nameless_event]]) initial_world
    = Some (Running, w', t)
    /\ count_events is_setmntent t
       = (List.length (skipn 2 scenario_argv)
          * S (dispatching [create_then_delete; [nameless_event]]))%nat
    /\ mount_queries w'
       = (mount_queries initial_world
          + List.length (skipn 2 scenario_argv)
            * S (dispatching [create_then_delete; [nameless_event]]))%nat.
Proof.
  apply (passes_of_a_run env_ssd1 scan_fuel scenario_argv
           [create_then_delete; [nameless_event]] initial_world).
  - reflexivity.
  - repeat constructor; vm_compute; discriminate.
  - apply Nat.le_refl.
Defined.

(** ** A mount check that finds nothing *)

Lemma scanned_dirs_no_match (entries : list mntent) (drive : string) :
  listed entries drive = false ->
  scanned_dirs entries drive = map mnt_dir entries.
Proof.
  unfold listed. induction entries as [| entry rest IH]; simpl;
    intros Hnone; [reflexivity |].
  apply orb_false_iff in Hnone. destruct Hnone as [Hentry Hrest].
  rewrite Hentry, (IH Hrest). reflexivity.
Qed.

(** When no entry of the mount table has the queried path as its mount
    directory, the mount check walks the whole table: it echoes every
    mount directory, in table order, then the flag 0, closes the stream
    and answers false. *)
Theorem mount_check_without_match (env : Env) (drive : string)
    (entries : list mntent) (w : World) :
  mtab_at env (mount_queries w) = Some entries ->
  (forall entry, In entry entries -> mnt_dir entry <> drive) ->
  is_drive_mounted env drive w
  = (false, count_mount_query w,
     Call_setmntent "/etc/mtab"
     :: map Stdout (map mnt_dir entries)
     ++ [Stdout "0"; Call_endmntent]).
Proof.
  intros Hmtab Hnone.
  assert (Hlisted : listed entries drive = false).
  { destruct (listed entries drive) eqn:Hl; [| reflexivity].
    apply listed_iff in Hl. destruct Hl as [entry [Hin Heq]].
    destruct (Hnone entry Hin Heq). }
  rewrite is_drive_mounted_run. unfold mounted_at, mount_check_log.
  rewrite Hmtab, Hlisted, (scanned_dirs_no_match entries drive Hlisted).
  reflexivity.
Qed.

Lemma mount_check_without_match_witness :
  is_drive_mounted env_ssd1 "/mnt/ssd2" initial_world
  = (false, count_mount_query initial_world,
     Call_setmntent "/etc/mtab"
     :: map Stdout
          (map mnt_dir [mount_entry "/dev/sda1" "/";
                        mount_entry "/dev/sdb1" "/mnt/ssd1"])
     ++ [Stdout "0"; Call_endmntent]).
Proof.
  apply (mount_check_without_match env_ssd1 "/mnt/ssd2"
           [mount_entry "/dev/sda1" "/"; mount_entry "/dev/sdb1" "/mnt/ssd1"]
           initial_world).
  - reflexivity.
  - intros entry [<- | [<- | []]]; simpl; discriminate.
Defined.
